(** * Path-addressed access to a JSON configuration document

    A shallow embedding of [packages/angular/cli/commands/config-impl.ts]:
    the path parser [parseJsonPath], the two reduce-style walks
    [getValueFromPath] and [setValueFromPath], the value normalizer
    [normalizeValue] with its registry [validCliPaths], and the methods [get]
    and [set] of the command. *)

From Stdlib Require Import Bool Arith NArith List Lia Ascii String Floats.
Import ListNotations.
Open Scope string_scope.
Set Warnings "-register-all".

(** ** Values

    A document is a tree of the six JSON shapes plus JavaScript's
    [undefined], which is what an array hole holds.  Numbers are IEEE
    doubles.  An object is the list of its own properties in the order
    JavaScript enumerates them.  No value is shared between two places of a
    document, and the objects of a document have [Object.prototype] as their
    prototype, as parsed JSON and object literals have; [Object.prototype]
    has its twelve standard members and no other. *)

Inductive JsonValue : Type :=
| JUndefined
| JNull
| JBoolean (b : bool)
| JNumber (n : float)
| JString (s : string)
| JArray (elements : list JsonValue)
| JObject (properties : list (string * JsonValue)).

(** What the accumulator of a walk can be: a value of the document, or what
    a property access finds on the prototype chain, which is
    [Object.prototype] itself (through [__proto__]) or one of its
    functions. *)
Inductive JsValue : Type :=
| Doc (v : JsonValue)
| ObjectPrototype
| BuiltinFunction (key : string).

Coercion Doc : JsonValue >-> JsValue.

(** A path fragment as the reducers receive it: [string | number].  A number
    fragment is an array index. *)
Inductive fragment : Type :=
| FString (key : string)
| FNumber (index : nat).

(** Outcome of a call that may throw. *)
Inductive exception : Type :=
| Error (message : string)
| InvalidJsonCharacterException
| JsonException.

Inductive outcome (A : Type) : Type :=
| Return (a : A)
| Throw (e : exception).
Arguments Return {A} a.
Arguments Throw {A} e.

(** [value == undefined]: loose equality, true of [undefined] and [null]. *)
Definition looseUndefined (value : JsValue) : bool :=
  match value with
  | Doc JUndefined | Doc JNull => true
  | _ => false
  end.

(** [typeof value == 'object']; a function is not one. *)
Definition typeofObject (value : JsValue) : bool :=
  match value with
  | Doc JNull | Doc (JArray _) | Doc (JObject _) | ObjectPrototype => true
  | _ => false
  end.

(** [Array.isArray(value)]. *)
Definition isArray (value : JsValue) : bool :=
  match value with
  | Doc (JArray _) => true
  | _ => false
  end.

(** [typeof current == 'string'] and [typeof current == 'number']. *)
Definition typeofString (current : fragment) : bool :=
  match current with FString _ => true | FNumber _ => false end.

Definition typeofNumber (current : fragment) : bool :=
  match current with FString _ => false | FNumber _ => true end.

(** *** Property and element access *)

(** The own property of a key, if there is one. *)
Fixpoint ownProperty (properties : list (string * JsonValue)) (key : string)
  : option JsonValue :=
  match properties with
  | [] => None
  | (k, v) :: rest => if String.eqb k key then Some v else ownProperty rest key
  end.

Definition hasOwn (properties : list (string * JsonValue)) (key : string)
  : bool :=
  match ownProperty properties key with
  | Some _ => true
  | None => false
  end.

Definition isProto (key : string) : bool := String.eqb key "__proto__".

(** The data properties of [Object.prototype], all of them functions. *)
Definition inheritedFunctions : list string :=
  [ "constructor"; "__defineGetter__"; "__defineSetter__"; "hasOwnProperty";
    "__lookupGetter__"; "__lookupSetter__"; "isPrototypeOf";
    "propertyIsEnumerable"; "toString"; "valueOf"; "toLocaleString" ].

Definition isInheritedFunction (key : string) : bool :=
  existsb (String.eqb key) inheritedFunctions.

(** A key that names a member of [Object.prototype]. *)
Definition inheritedName (key : string) : bool :=
  isProto key || isInheritedFunction key.

(** What an object that has no own property [key] inherits: the getter of
    [__proto__] gives the prototype of the object. *)
Definition inheritedMember (key : string) : JsValue :=
  if isProto key then ObjectPrototype
  else if isInheritedFunction key then BuiltinFunction key
  else JUndefined.

(** [Object.prototype[key]]: the prototype of [Object.prototype] is
    [null]. *)
Definition prototypeMember (key : string) : JsValue :=
  if isProto key then JNull
  else if isInheritedFunction key then BuiltinFunction key
  else JUndefined.

(** [value[key]] for an object of the document. *)
Definition getProperty (properties : list (string * JsonValue)) (key : string)
  : JsValue :=
  match ownProperty properties key with
  | Some v => Doc v
  | None => inheritedMember key
  end.

(** The array index a key is, if it is one: a canonical decimal numeral
    below 2^32 - 1. *)
Definition digitOf (c : ascii) : option N :=
  let n := N_of_ascii c in
  if (N.leb 48 n && N.leb n 57)%bool then Some (n - 48)%N else None.

Fixpoint numeral (acc : N) (s : string) : option N :=
  match s with
  | EmptyString => Some acc
  | String c rest =>
      match digitOf c with
      | Some d => numeral (acc * 10 + d)%N rest
      | None => None
      end
  end.

Definition arrayIndex (key : string) : option N :=
  match key with
  | EmptyString => None
  | String c rest =>
      if (Ascii.eqb c "0" && negb (String.eqb rest ""))%bool then None
      else match numeral 0 key with
           | Some n => if N.ltb n 4294967295 then Some n else None
           | None => None
           end
  end.

Fixpoint replaceProperty (properties : list (string * JsonValue))
  (key : string) (v : JsonValue) : list (string * JsonValue) :=
  match properties with
  | [] => []
  | (k, old) :: rest =>
      if String.eqb k key then (k, v) :: rest
      else (k, old) :: replaceProperty rest key v
  end.

(** A new key that is an array index goes among the indices, in ascending
    order, before the other keys. *)
Fixpoint insertIndexed (properties : list (string * JsonValue))
  (key : string) (n : N) (v : JsonValue) : list (string * JsonValue) :=
  match properties with
  | [] => [(key, v)]
  | (k, old) :: rest =>
      match arrayIndex k with
      | Some m =>
          if N.ltb m n then (k, old) :: insertIndexed rest key n v
          else (key, v) :: (k, old) :: rest
      | None => (key, v) :: (k, old) :: rest
      end
  end.

(** Assignment to an own data property: an existing key keeps its place, a
    new key that is no array index goes last. *)
Definition setProperty (properties : list (string * JsonValue)) (key : string)
  (v : JsonValue) : list (string * JsonValue) :=
  if hasOwn properties key then replaceProperty properties key v
  else match arrayIndex key with
       | Some n => insertIndexed properties key n v
       | None => (properties ++ [(key, v)])%list
       end.

Definition getElement (elements : list JsonValue) (index : nat) : JsonValue :=
  nth index elements JUndefined.

(** Assignment past the end grows the array; the slots in between are holes,
    which read as [undefined]. *)
Fixpoint setElement (elements : list JsonValue) (index : nat) (v : JsonValue)
  : list JsonValue :=
  match elements, index with
  | [], 0 => [v]
  | [], S i => JUndefined :: setElement [] i v
  | _ :: rest, 0 => v :: rest
  | e :: rest, S i => e :: setElement rest i v
  end.

(** [value[current]], for a fragment of the kind of the container. *)
Definition member (value : JsValue) (current : fragment) : JsValue :=
  match value, current with
  | Doc (JObject properties), FString key => getProperty properties key
  | Doc (JArray elements), FNumber index => Doc (getElement elements index)
  | ObjectPrototype, FString key => prototypeMember key
  | _, _ => JUndefined
  end.

(** A container whose kind is the one [current] selects from. *)
Definition accepts (value : JsValue) (current : fragment) : bool :=
  match value, current with
  | Doc (JObject _), FString _ => true
  | Doc (JArray _), FNumber _ => true
  | ObjectPrototype, FString _ => true
  | _, _ => false
  end.

(** An assignment [value[current] = v] that stores an own property or an
    element: every assignment to an array of the document, and to an object
    of the document unless the key is [__proto__] and not its own, which
    calls the setter it inherits. *)
Definition storesOwn (value : JsValue) (current : fragment) : bool :=
  match value, current with
  | Doc (JObject properties), FString key =>
      hasOwn properties key || negb (isProto key)
  | Doc (JArray _), FNumber _ => true
  | _, _ => false
  end.

(** The container after such an assignment. *)
Definition assign (value : JsValue) (current : fragment) (v : JsonValue)
  : JsValue :=
  match value, current with
  | Doc (JObject properties), FString key =>
      Doc (JObject (setProperty properties key v))
  | Doc (JArray elements), FNumber index =>
      Doc (JArray (setElement elements index v))
  | _, _ => value
  end.

(** What the setter of [__proto__] does with an object. *)
Definition isObject (v : JsonValue) : bool :=
  match v with
  | JArray _ | JObject _ => true
  | _ => false
  end.

Definition isNull (v : JsonValue) : bool :=
  match v with
  | JNull => true
  | _ => false
  end.

(** What an assignment [value[current] = v] of a reducer does.  It stores
    into the document, or is ignored (the setter of [__proto__] given a
    primitive, or [null] on [Object.prototype], whose prototype is already
    [null]); it raises a [TypeError] (the setter on [Object.prototype] given
    an object: that prototype cannot be changed); or it leaves the document:
    it replaces the prototype of an object or writes a property of
    [Object.prototype], which every object of the process inherits. *)
Inductive effect : Type :=
| Stores (stored : JsValue)
| Raises
| Leaves.

Definition assignMember (value : JsValue) (current : fragment) (v : JsonValue)
  : effect :=
  if storesOwn value current then Stores (assign value current v)
  else
    match value, current with
    | Doc (JObject _), FString _ =>
        if isObject v || isNull v then Leaves else Stores value
    | ObjectPrototype, FString key =>
        if isProto key then (if isObject v then Raises else Stores value)
        else Leaves
    | _, _ => Stores value
    end.

(** ** Reading: the reducer and the walk of [getValueFromPath] *)

Definition getReducer (value : JsValue) (current : fragment) : JsValue :=
  if looseUndefined value || negb (typeofObject value) then JUndefined
  else if typeofString current && negb (isArray value) then member value current
  else if typeofNumber current && isArray value then member value current
  else JUndefined.

(** [fragments.reduce(getReducer, value)]. *)
Definition getFrom (value : JsValue) (fragments : list fragment) : JsValue :=
  fold_left getReducer fragments value.

Definition getValueFromFragments (root : JsonValue) (fragments : list fragment)
  : JsValue :=
  getFrom root fragments.

(** ** Writing: the reducer and the walk of [setValueFromPath]

    The source mutates the document in place while the accumulator moves from
    a container to its child.  Here each step returns, next to the value the
    reduce returns, the container as it is once the rest of the walk has run:
    a child that is an own property or an element is the very object its
    parent holds, so what later steps write into it is put back at
    [current]. *)

(** The container made at a missing intermediate slot, chosen by
    [typeof fragments[index + 1]]. *)
Definition emptyFor (next : fragment) : JsonValue :=
  if typeofNumber next then JArray [] else JObject [].

(** The assignments one step of the reducer performs on [value]; [rest] is
    what follows [current] in [fragments], so [rest = []] is
    [index === fragments.length - 1]. *)
Definition setStore (value : JsValue) (current : fragment)
  (rest : list fragment) (newValue : JsonValue) : effect :=
  match rest with
  | [] => assignMember value current newValue
  | next :: _ =>
      if looseUndefined (member value current)
      then assignMember value current (emptyFor next)
      else Stores value
  end.

(** The parent once the walk has run in its child: an own property or an
    element is replaced by its new state, an inherited member is not part of
    the parent. *)
Definition putBack (value : JsValue) (current : fragment) (child : JsValue)
  : JsValue :=
  match value, current, child with
  | Doc (JObject properties), FString key, Doc c =>
      if hasOwn properties key
      then Doc (JObject (replaceProperty properties key c))
      else value
  | Doc (JArray elements), FNumber index, Doc c =>
      if Nat.ltb index (List.length elements)
      then Doc (JArray (setElement elements index c))
      else value
  | _, _, _ => value
  end.

(** The walk: [None] when an assignment leaves the document; a [TypeError]
    is caught by the [catch], which returns [undefined]. *)
Fixpoint setWalk (value : JsValue) (fragments : list fragment)
  (newValue : JsonValue) : option (JsValue * JsValue) :=
  match fragments with
  | [] => Some (value, value)
  | current :: rest =>
      if looseUndefined value || negb (typeofObject value)
      then Some (Doc JUndefined, value)
      else if (typeofString current && negb (isArray value))
              || (typeofNumber current && isArray value)
      then
        match setStore value current rest newValue with
        | Stores stored =>
            match setWalk (member stored current) rest newValue with
            | Some (result, child) =>
                Some (result, putBack stored current child)
            | None => None
            end
        | Raises => Some (Doc JUndefined, value)
        | Leaves => None
        end
      else Some (Doc JUndefined, value)
  end.

Section Outside.

(** What the call returns, and the own properties it leaves in the document,
    when an assignment leaves the document: the state of the prototypes is
    not described here, and the walk is taken as given from there. *)
Variable outside :
  JsonValue -> list fragment -> JsonValue -> JsValue * JsonValue.

(** [fragments.reduce(setReducer, root)] inside its [try]: the value returned
    and the document afterwards. *)
Definition setValueFromFragments (root : JsonValue) (fragments : list fragment)
  (newValue : JsonValue) : JsValue * JsonValue :=
  match setWalk root fragments newValue with
  | Some (result, Doc document) => (result, document)
  | _ => outside root fragments newValue
  end.

End Outside.

(** An [outside] for examples that never leave the document. *)
Definition notConsulted (root : JsonValue) (fragments : list fragment)
  (newValue : JsonValue) : JsValue * JsonValue :=
  (Doc JUndefined, root).

(** ** What the specification means by a path that resolves

    Written from the words of the specification, to be compared with
    [getValueFromFragments]: a walk descends from a mapping by a key-step to
    the entry of that key, from a sequence by an index-step to the element at
    that index, and the empty path stays where it is. *)
Inductive Resolves : JsonValue -> list fragment -> JsonValue -> Prop :=
| ResolvesHere (v : JsonValue) : Resolves v [] v
| ResolvesKey (properties : list (string * JsonValue)) (key : string)
    (entry : JsonValue) (rest : list fragment) (v : JsonValue) :
    ownProperty properties key = Some entry ->
    Resolves entry rest v ->
    Resolves (JObject properties) (FString key :: rest) v
| ResolvesIndex (elements : list JsonValue) (index : nat)
    (entry : JsonValue) (rest : list fragment) (v : JsonValue) :
    nth_error elements index = Some entry ->
    Resolves entry rest v ->
    Resolves (JArray elements) (FNumber index :: rest) v.

(** A value that is there and is no container: a boolean, a number or a
    string. *)
Definition isScalar (value : JsValue) : bool :=
  match value with
  | Doc (JBoolean _) | Doc (JNumber _) | Doc (JString _) => true
  | _ => false
  end.

(** A fragment that is not the key [__proto__], and one that names no member
    of [Object.prototype]. *)
Definition notProto (current : fragment) : bool :=
  match current with
  | FString key => negb (isProto key)
  | FNumber _ => true
  end.

Definition plainFragment (current : fragment) : bool :=
  match current with
  | FString key => negb (inheritedName key)
  | FNumber _ => true
  end.

(** The assignments of a step that stores own properties or elements, as the
    container they leave. *)
Definition store (value : JsValue) (current : fragment)
  (rest : list fragment) (newValue : JsonValue) : JsValue :=
  match rest with
  | [] => assign value current newValue
  | next :: _ =>
      if looseUndefined (member value current)
      then assign value current (emptyFor next)
      else value
  end.

(** The document once the walk has run below a prefix of reads. *)
Fixpoint putAlong (value : JsValue) (p : list fragment) (target : JsValue)
  : JsValue :=
  match p with
  | [] => target
  | current :: rest =>
      putBack value current (putAlong (member value current) rest target)
  end.

Definition isDoc (value : JsValue) : bool :=
  match value with
  | Doc _ => true
  | _ => false
  end.

(** A path without the key [__proto__], and a path no key of which names a
    member of [Object.prototype]. *)
Definition noProto (fragments : list fragment) : bool :=
  forallb notProto fragments.

Definition plainPath (fragments : list fragment) : bool :=
  forallb plainFragment fragments.
(** ** The path parser

    Strings are sequences of 8-bit code units; of JavaScript's line
    terminators and white space only those below 256 occur. *)

Definition isOpen (c : ascii) : bool := Ascii.eqb c "[".
Definition isClose (c : ascii) : bool := Ascii.eqb c "]".
Definition isDot (c : ascii) : bool := Ascii.eqb c ".".

(** The characters the regular expression's [.] does not match. *)
Definition isLineTerminator (c : ascii) : bool :=
  Ascii.eqb c "010" || Ascii.eqb c "013".

(** [s.split(/\./g)]: never empty, the empty string gives one empty piece. *)
Fixpoint splitDots (s : string) : list string :=
  match s with
  | EmptyString => [""]
  | String c rest =>
      if isDot c then "" :: splitDots rest
      else match splitDots rest with
           | piece :: pieces => String c piece :: pieces
           | [] => [String c ""]
           end
  end.

(** The regular expression of [fragment.match] is a run of one or more
    characters other than an opening bracket (group 1) followed by any number
    of bracketed groups (group 2).  It is not anchored: the match starts at
    the first character that is not an opening bracket. *)
Fixpoint skipOpens (s : string) : string :=
  match s with
  | EmptyString => ""
  | String c rest => if isOpen c then skipOpens rest else s
  end.

(** Group 1 is greedy: the longest run without an opening bracket; the
    second component is what follows it. *)
Fixpoint spanName (s : string) : string * string :=
  match s with
  | EmptyString => ("", "")
  | String c rest =>
      if isOpen c then ("", s)
      else let (name, after) := spanName rest in (String c name, after)
  end.

(** One bracketed group, after its opening bracket: any characters, greedily,
    then a closing bracket.  The dot stays on the line and gives back
    characters until a closing bracket follows, so the match ends at the last
    closing bracket of the line. *)
Fixpoint throughLastClose (s : string) : option string :=
  match s with
  | EmptyString => None
  | String c rest =>
      if isLineTerminator c then None
      else match throughLastClose rest with
           | Some matched => Some (String c matched)
           | None => if isClose c then Some (String c "") else None
           end
  end.

(** Group 2: after one repetition has run to the last closing bracket of the
    line no second one can match, and with no repetition the group is the
    empty string. *)
Definition bracketGroups (s : string) : string :=
  match s with
  | EmptyString => ""
  | String c rest =>
      if isOpen c then
        match throughLastClose rest with
        | Some matched => String c matched
        | None => ""
        end
      else ""
  end.

(** [fragment.match(regexp)]: [None] is JavaScript's [null], otherwise
    [(match[1], match[2])]. *)
Definition matchFragment (fragment : string) : option (string * string) :=
  match skipOpens fragment with
  | EmptyString => None
  | s => let (name, after) := spanName s in Some (name, bracketGroups after)
  end.

Fixpoint dropLast (s : string) : string :=
  match s with
  | EmptyString => ""
  | String c EmptyString => ""
  | String c rest => String c (dropLast rest)
  end.

(** [s.slice(1, -1)]. *)
Definition slice_1_m1 (s : string) : string :=
  match s with
  | EmptyString => ""
  | String _ rest => dropLast rest
  end.

(** [s.split('][')]. *)
Fixpoint splitCloseOpen (s : string) : list string :=
  match s with
  | EmptyString => [""]
  | String c rest =>
      let keep :=
        match splitCloseOpen rest with
        | piece :: pieces => String c piece :: pieces
        | [] => [String c ""]
        end in
      match rest with
      | String c' rest' =>
          if isClose c && isOpen c' then "" :: splitCloseOpen rest' else keep
      | EmptyString => keep
      end
  end.

(** What one turn of the [while] loop pushes for a fragment that matched. *)
Definition pushed (match1 match2 : string) : list string :=
  match1 ::
  match match2 with
  | EmptyString => []
  | _ => splitCloseOpen (slice_1_m1 match2)
  end.

(** The [while] loop over the fragments left to shift. *)
Fixpoint parseFragments (fragments : list string) : outcome (list string) :=
  match fragments with
  | [] => Return []
  | fragment :: more =>
      match matchFragment fragment with
      | None => Throw (Error "Invalid JSON path.")
      | Some (match1, match2) =>
          match parseFragments more with
          | Return result => Return (pushed match1 match2 ++ result)%list
          | Throw e => Throw e
          end
      end
  end.

(** [!!fragment] for a string. *)
Definition truthy (s : string) : bool :=
  match s with EmptyString => false | _ => true end.

Definition parseJsonPath (path : string) : outcome (list string) :=
  match parseFragments (splitDots path) with
  | Return result => Return (filter truthy result)
  | Throw e => Throw e
  end.

(** The fragments as the reducers see them: every one [typeof 'string']. *)
Definition fragmentsOf (parsed : list string) : list fragment :=
  map FString parsed.

(** [getValueFromPath] and [setValueFromPath]: [parseJsonPath] is called
    before the [try], so its error is not caught.  The one error a reducer
    can raise, that of giving [Object.prototype] another prototype, is caught
    and makes the set return [undefined]; [setWalk] has it so. *)
Definition getValueFromPath (root : JsonValue) (path : string)
  : outcome JsValue :=
  match parseJsonPath path with
  | Return fragments =>
      Return (getValueFromFragments root (fragmentsOf fragments))
  | Throw e => Throw e
  end.

Definition setValueFromPath
  (outside : JsonValue -> list fragment -> JsonValue -> JsValue * JsonValue)
  (root : JsonValue) (path : string) (newValue : JsonValue)
  : outcome (JsValue * JsonValue) :=
  match parseJsonPath path with
  | Return fragments =>
      Return (setValueFromFragments outside root (fragmentsOf fragments)
                newValue)
  | Throw e => Throw e
  end.

(** A path string none of whose steps is the key [__proto__]. *)
Definition protoFree (path : string) : bool :=
  match parseJsonPath path with
  | Return fragments => noProto (fragmentsOf fragments)
  | Throw _ => true
  end.

(** The grammar of the specification, to state what the parser does on paths
    that follow it: a segment is a name and its bracketed groups. *)
Definition segment : Type := (string * list string)%type.

Fixpoint brackets (groups : list string) : string :=
  match groups with
  | [] => ""
  | g :: more => "[" ++ g ++ "]" ++ brackets more
  end.

Definition renderSegment (sg : segment) : string :=
  fst sg ++ brackets (snd sg).

Fixpoint renderPath (segments : list segment) : string :=
  match segments with
  | [] => ""
  | [sg] => renderSegment sg
  | sg :: more => renderSegment sg ++ "." ++ renderPath more
  end.

Fixpoint allChars (p : ascii -> bool) (s : string) : bool :=
  match s with
  | EmptyString => true
  | String c rest => p c && allChars p rest
  end.

(** A character a name may hold, and one the content of a group may hold:
    the dot of the regular expression does not cross a line break. *)
Definition nameChar (c : ascii) : bool :=
  negb (isOpen c) && negb (isClose c) && negb (isDot c).

Definition plainChar (c : ascii) : bool :=
  nameChar c && negb (isLineTerminator c).

Definition nameText (s : string) : bool := truthy s && allChars nameChar s.

Definition plainText (s : string) : bool := truthy s && allChars plainChar s.

Definition wellFormedSegment (sg : segment) : bool :=
  nameText (fst sg) && forallb plainText (snd sg).

(** The steps a segment stands for: its name, then the content of each
    group. *)
Definition segmentSteps (sg : segment) : list string := fst sg :: snd sg.

(** What lies between the first opening and the last closing bracket of a
    run of groups. *)
Fixpoint joinCloseOpen (groups : list string) : string :=
  match groups with
  | [] => ""
  | [g] => g
  | g :: more => g ++ "][" ++ joinCloseOpen more
  end.

Definition notDot (c : ascii) : bool := negb (isDot c).
Definition notOpen (c : ascii) : bool := negb (isOpen c).
Definition notClose (c : ascii) : bool := negb (isClose c).
Definition onLine (c : ascii) : bool := negb (isLineTerminator c).


(** A decimal digit, and a text that holds none: the content of such a
    group is no number under any reading. *)
Definition isDigit (c : ascii) : bool :=
  match digitOf c with
  | Some _ => true
  | None => false
  end.

Definition noDigit (s : string) : bool :=
  allChars (fun c => negb (isDigit c)) s.

Definition textGroups (sg : segment) : bool := forallb noDigit (snd sg).
(** ** The value normalizer *)

(** The registry of typed paths, a [Map] from the path to the name of its
    kind. *)
Definition validCliPathsEntries : list (string * string) :=
  [ ("cli.warnings.versionMismatch", "boolean");
    ("cli.warnings.typescriptMismatch", "boolean");
    ("cli.defaultCollection", "string");
    ("cli.packageManager", "string") ].

Fixpoint mapGet (entries : list (string * string)) (key : string)
  : option string :=
  match entries with
  | [] => None
  | (k, v) :: rest => if String.eqb k key then Some v else mapGet rest key
  end.

(** [validCliPaths.get(path)]. *)
Definition validCliPaths (path : string) : option string :=
  mapGet validCliPathsEntries path.

(** Modelled from the spec: the type [Value] of [./config] is not among the
    sources.  The raw input is a string or a scalar that is already typed. *)
Inductive ConfigCommandSchemaValue : Type :=
| VString (s : string)
| VNumber (n : float)
| VBoolean (b : bool).

(** The raw value as the JSON value it is. *)
Definition jsonOf (value : ConfigCommandSchemaValue) : JsonValue :=
  match value with
  | VString s => JString s
  | VNumber n => JNumber n
  | VBoolean b => JBoolean b
  end.

(** The characters [trim] removes. *)
Definition isWhiteSpace (c : ascii) : bool :=
  Ascii.eqb c "009" || Ascii.eqb c "010" || Ascii.eqb c "011"
  || Ascii.eqb c "012" || Ascii.eqb c "013" || Ascii.eqb c " "
  || Ascii.eqb c "160".

Fixpoint trimStart (s : string) : string :=
  match s with
  | EmptyString => ""
  | String c rest => if isWhiteSpace c then trimStart rest else s
  end.

Fixpoint trimEnd (s : string) : string :=
  match s with
  | EmptyString => ""
  | String c rest =>
      match trimEnd rest with
      | EmptyString => if isWhiteSpace c then "" else String c ""
      | kept => String c kept
      end
  end.

Definition trim (s : string) : string := trimEnd (trimStart s).

(** [value.startsWith('{')]. *)
Definition startsWithBrace (s : string) : bool :=
  match s with
  | String c _ => Ascii.eqb c "{"
  | EmptyString => false
  end.

(** [e instanceof InvalidJsonCharacterException]. *)
Definition isInvalidJsonCharacter (e : exception) : bool :=
  match e with
  | InvalidJsonCharacterException => true
  | _ => false
  end.

Section Normalizer.

(** What the language and the JSON library provide: the text of a number,
    the number a string converts to, and [parseJson] in its loose mode. *)
Variable numberToString : float -> string.
Variable stringToNumber : string -> float.
Variable parseJson : string -> outcome JsonValue.

(** ['' + value]. *)
Definition stringOf (value : ConfigCommandSchemaValue) : string :=
  match value with
  | VString s => s
  | VNumber n => numberToString n
  | VBoolean b => if b then "true" else "false"
  end.

(** [Number(value)]. *)
Definition Number (value : ConfigCommandSchemaValue) : float :=
  match value with
  | VString s => stringToNumber s
  | VNumber n => n
  | VBoolean b => if b then 1%float else 0%float
  end.

Definition invalidValueType (cliOptionType : string) : exception :=
  Error ("Invalid value type; expected a " ++ cliOptionType ++ ".").

(** The [switch] on the kind and the [throw] after it. *)
Definition normalizeCliOption (cliOptionType : string)
  (value : ConfigCommandSchemaValue) : outcome JsonValue :=
  if String.eqb cliOptionType "boolean" then
    if String.eqb (trim (stringOf value)) "true" then
      Return (JBoolean true)
    else if String.eqb (trim (stringOf value)) "false" then
      Return (JBoolean false)
    else Throw (invalidValueType cliOptionType)
  else if String.eqb cliOptionType "number" then
    let numberValue := Number value in
    if negb (is_finite numberValue) then Return (JNumber numberValue)
    else Throw (invalidValueType cliOptionType)
  else if String.eqb cliOptionType "string" then
    Return (jsonOf value)
  else Throw (invalidValueType cliOptionType).

(** What follows the registry's branch: the lenient parse of a string. *)
Definition normalizeFreeForm (value : ConfigCommandSchemaValue)
  : outcome JsonValue :=
  match value with
  | VString s =>
      match parseJson s with
      | Return parsed => Return parsed
      | Throw e =>
          if isInvalidJsonCharacter e && negb (startsWithBrace s)
          then Return (JString s)
          else Throw e
      end
  | _ => Return (jsonOf value)
  end.

Definition normalizeValue (value : ConfigCommandSchemaValue) (path : string)
  : outcome JsonValue :=
  match validCliPaths path with
  | Some cliOptionType =>
      if truthy cliOptionType then normalizeCliOption cliOptionType value
      else normalizeFreeForm value
  | None => normalizeFreeForm value
  end.

End Normalizer.

(** The number a run of decimal digits converts to; a text with any other
    character in it is given [NaN], as JavaScript does for letters. *)
Definition digitValue (c : ascii) : option float :=
  let n := nat_of_ascii c in
  if Nat.leb 48 n && Nat.leb n 57
  then Some (PrimFloat.of_uint63 (Uint63.of_nat (n - 48)))
  else None.

Fixpoint digitsToNumber (acc : float) (s : string) : float :=
  match s with
  | EmptyString => acc
  | String c rest =>
      match digitValue c with
      | Some d => digitsToNumber (acc * 10 + d)%float rest
      | None => nan
      end
  end.

Definition decimalToNumber (s : string) : float := digitsToNumber 0%float s.

(** Modelled from the spec: [parseJson] of the JSON library is not among the
    sources.  The lenient parse reads a number or one of the words of JSON,
    and text such as [not-json-but-plain] fails on an invalid character;
    quoted strings, arrays and objects are left out of this model, which
    treats them like other text. *)
Definition parseJsonWords (s : string) : outcome JsonValue :=
  if String.eqb s "true" then Return (JBoolean true)
  else if String.eqb s "false" then Return (JBoolean false)
  else if String.eqb s "null" then Return JNull
  else if truthy s && negb (is_nan (decimalToNumber s))
  then Return (JNumber (decimalToNumber s))
  else Throw InvalidJsonCharacterException.

(** ** The command: [ConfigCommand.get] and [ConfigCommand.set]

    The logger, the loader of the workspace file, the validator, the
    serializer and the file system are what the command is given; a run is
    described by what it returns or throws, what it logs and which calls of
    [writeFileSync] it makes. *)

Inductive logEntry : Type :=
| LogInfo (message : string)
| LogError (message : string)
| LogFatal (message : string).

Record Run : Type := {
  exit : outcome nat;
  logged : list logEntry;
  written : list (string * string)
}.

(** The options of the command: [jsonPath?], [value?] and [global?]. *)
Record ConfigCommandSchema : Type := {
  global : bool;
  jsonPath : option string;
  value : option ConfigCommandSchemaValue
}.

(** [value === undefined]. *)
Definition strictUndefined (v : JsValue) : bool :=
  match v with
  | Doc JUndefined => true
  | _ => false
  end.

(** Options whose path, if there is one, has no step that is the key
    [__proto__]. *)
Definition avoidsProto (options : ConfigCommandSchema) : bool :=
  match jsonPath options with
  | Some path => protoFree path
  | None => true
  end.

(** [s.startsWith(prefix)]. *)
Fixpoint startsWith (prefix s : string) : bool :=
  match prefix, s with
  | EmptyString, _ => true
  | String a prefix', String b s' => Ascii.eqb a b && startsWith prefix' s'
  | String _ _, EmptyString => false
  end.

(** [validCliPaths.has(path)]. *)
Definition validCliPathsHas (path : string) : bool :=
  match validCliPaths path with
  | Some _ => true
  | None => false
  end.

(** [options.value || '']: what is missing or falsy becomes the empty
    string. *)
Definition valueOrEmpty (v : option ConfigCommandSchemaValue)
  : ConfigCommandSchemaValue :=
  match v with
  | Some (VString s) => VString s
  | Some (VNumber n) => if is_zero n || is_nan n then VString "" else VNumber n
  | Some (VBoolean b) => if b then VBoolean true else VString ""
  | None => VString ""
  end.

(** The object a set builds below an empty object along string fragments. *)
Fixpoint nest (keys : list string) (v : JsonValue) : JsonValue :=
  match keys with
  | [] => v
  | key :: more => JObject [(key, nest more v)]
  end.

Section Command.

Variable numberToString : float -> string.
Variable stringToNumber : string -> float.
Variable parseJson : string -> outcome JsonValue.

(** [getWorkspaceRaw(level)], with the value of the syntax tree in place of
    the tree; the argument tells whether the level is global. *)
Variable getWorkspaceRaw : bool -> option JsonValue * option string.

(** [validateWorkspace(document)]: the message of the error it throws, if it
    throws. *)
Variable validateWorkspace : JsonValue -> option string.

(** [JSON.stringify(document, null, 2)]. *)
Variable stringify : JsonValue -> string.

(** [writeFileSync(path, data)]: the error it throws, if it throws. *)
Variable writeFileSync : string -> string -> option exception.

(** What a set that assigns outside the document returns and leaves. *)
Variable outside :
  JsonValue -> list fragment -> JsonValue -> JsValue * JsonValue.

(** The text of the built-in function found under a key of
    [Object.prototype], as its [toString] gives it. *)
Variable functionToString : string -> string.

Definition thrown (e : exception) (log : list logEntry) : Run :=
  {| exit := Throw e; logged := log; written := [] |}.

Definition returned (code : nat) (log : list logEntry) : Run :=
  {| exit := Return code; logged := log; written := [] |}.

(** [value.toString()] of a value that is no object. *)
Definition primitiveToString (v : JsonValue) : string :=
  match v with
  | JString s => s
  | JNumber n => numberToString n
  | JBoolean b => if b then "true" else "false"
  | _ => ""
  end.

(** [JSON.stringify(value, null, 2)] of what a read can give with
    [typeof 'object']: [Object.prototype] has no enumerable property of its
    own. *)
Definition stringifyValue (v : JsValue) : string :=
  match v with
  | Doc d => stringify d
  | ObjectPrototype => "{}"
  | BuiltinFunction _ => "undefined"
  end.

(** [value.toString()] of what a read can give with another [typeof]. *)
Definition valueToString (v : JsValue) : string :=
  match v with
  | Doc d => primitiveToString d
  | ObjectPrototype => "[object Object]"
  | BuiltinFunction key => functionToString key
  end.

Definition get (config : JsonValue) (options : ConfigCommandSchema) : Run :=
  let found :=
    match jsonPath options with
    | Some path =>
        if truthy path then getValueFromPath config path
        else Return (Doc config)
    | None => Return (Doc config)
    end in
  match found with
  | Throw e => thrown e []
  | Return v =>
      if strictUndefined v then returned 1 [LogError "Value cannot be found."]
      else if typeofObject v then returned 0 [LogInfo (stringifyValue v)]
      else returned 0 [LogInfo (valueToString v)]
  end.

(** The part of [set] that follows the loading of the file. *)
Definition setLoaded (configValue : JsonValue) (configPath path : string)
  (options : ConfigCommandSchema) : Run :=
  match normalizeValue numberToString stringToNumber parseJson
          (valueOrEmpty (value options)) path with
  | Throw e => thrown e []
  | Return normalized =>
      match setValueFromPath outside configValue path normalized with
      | Throw e => thrown e []
      | Return (result, updated) =>
          if strictUndefined result
          then returned 1 [LogError "Value cannot be found."]
          else
            match validateWorkspace updated with
            | Some message => returned 1 [LogFatal message]
            | None =>
                let output := stringify updated in
                {| exit := match writeFileSync configPath output with
                           | Some e => Throw e
                           | None => Return 0
                           end;
                   logged := [];
                   written := [(configPath, output)] |}
            end
      end
  end.

Definition set (options : ConfigCommandSchema) : Run :=
  match jsonPath options with
  | None => thrown (Error "Invalid Path.") []
  | Some path =>
      if negb (truthy path) || negb (truthy (trim path))
      then thrown (Error "Invalid Path.") []
      else if global options && negb (startsWith "schematics." path)
              && negb (validCliPathsHas path)
      then thrown (Error "Invalid Path.") []
      else
        match getWorkspaceRaw (global options) with
        | (Some configValue, Some configPath) =>
            if truthy configPath
            then setLoaded configValue configPath path options
            else returned 1 [LogError "Confguration file cannot be found."]
        | _ => returned 1 [LogError "Confguration file cannot be found."]
        end
  end.

End Command.

(** Collaborators for the examples: a loader that finds an empty workspace
    file, a validator that accepts, a serializer and a file system that
    succeed. *)
Definition emptyWorkspaceRaw (isGlobal : bool)
  : option JsonValue * option string :=
  (Some (JObject []), Some (if isGlobal then "~/.angular-config.json"
                            else "angular.json")).

Definition noWorkspaceRaw (isGlobal : bool)
  : option JsonValue * option string := (None, None).

Definition acceptWorkspace (document : JsonValue) : option string := None.

Definition writeSucceeds (path data : string) : option exception := None.

(** The text of a built-in function, as Node gives it. *)
Definition nativeCode (key : string) : string :=
  "function " ++ (if String.eqb key "constructor" then "Object" else key)
  ++ "() { [native code] }".

(** A serializer for the examples: strings and keys are shown bare and
    numbers by a mark; enough to tell the documents of the examples apart. *)
Fixpoint showJson (v : JsonValue) : string :=
  match v with
  | JUndefined => "undefined"
  | JNull => "null"
  | JBoolean b => if b then "true" else "false"
  | JNumber _ => "#"
  | JString s => s
  | JArray elements =>
      "[" ++ fold_right (fun e acc => showJson e ++ "," ++ acc) "" elements
      ++ "]"
  | JObject properties =>
      "{" ++ fold_right
               (fun kv acc => fst kv ++ ":" ++ showJson (snd kv) ++ "," ++ acc)
               "" properties
      ++ "}"
  end.

(** * Properties *)

(** ** Properties and elements *)

Lemma hasOwn_true (properties : list (string * JsonValue)) (key : string) :
  hasOwn properties key = true ->
  exists v, ownProperty properties key = Some v.
Proof.
  unfold hasOwn. destruct (ownProperty properties key); [eauto | discriminate].
Qed.

Lemma hasOwn_false (properties : list (string * JsonValue)) (key : string) :
  hasOwn properties key = false -> ownProperty properties key = None.
Proof.
  unfold hasOwn. now destruct (ownProperty properties key).
Qed.

Lemma ownProperty_replaceProperty (properties : list (string * JsonValue))
  (key : string) (v : JsonValue) :
  hasOwn properties key = true ->
  ownProperty (replaceProperty properties key v) key = Some v.
Proof.
  unfold hasOwn.
  induction properties as [| [k old] rest IH]; simpl; [discriminate |].
  destruct (String.eqb k key) eqn:E; simpl; rewrite E; auto.
Qed.

Lemma ownProperty_insertIndexed (properties : list (string * JsonValue))
  (key : string) (n : N) (v : JsonValue) :
  hasOwn properties key = false ->
  ownProperty (insertIndexed properties key n v) key = Some v.
Proof.
  unfold hasOwn.
  induction properties as [| [k old] rest IH]; simpl.
  - now rewrite String.eqb_refl.
  - destruct (String.eqb k key) eqn:E; [discriminate |]. intros H.
    destruct (arrayIndex k) as [m |]; [destruct (N.ltb m n) |]; simpl;
      rewrite ?E, ?String.eqb_refl; auto.
Qed.

Lemma ownProperty_app_new (properties : list (string * JsonValue))
  (key : string) (v : JsonValue) :
  hasOwn properties key = false ->
  ownProperty (properties ++ [(key, v)]) key = Some v.
Proof.
  unfold hasOwn.
  induction properties as [| [k old] rest IH]; simpl.
  - now rewrite String.eqb_refl.
  - destruct (String.eqb k key); [discriminate | exact IH].
Qed.

Lemma ownProperty_setProperty (properties : list (string * JsonValue))
  (key : string) (v : JsonValue) :
  ownProperty (setProperty properties key v) key = Some v.
Proof.
  unfold setProperty. destruct (hasOwn properties key) eqn:H.
  - now apply ownProperty_replaceProperty.
  - destruct (arrayIndex key);
      [now apply ownProperty_insertIndexed | now apply ownProperty_app_new].
Qed.

Lemma hasOwn_setProperty (properties : list (string * JsonValue))
  (key : string) (v : JsonValue) :
  hasOwn (setProperty properties key v) key = true.
Proof. unfold hasOwn at 1. now rewrite ownProperty_setProperty. Qed.

Lemma eqb_other (k key other : string) :
  key <> other -> String.eqb k key = true -> String.eqb k other = false.
Proof.
  intros NE E. apply String.eqb_eq in E. subst k.
  now apply String.eqb_neq.
Qed.

Lemma ownProperty_replaceProperty_other
  (properties : list (string * JsonValue)) (key other : string)
  (v : JsonValue) :
  key <> other ->
  ownProperty (replaceProperty properties key v) other
  = ownProperty properties other.
Proof.
  intros NE. induction properties as [| [k old] rest IH]; simpl;
    [reflexivity |].
  destruct (String.eqb k key) eqn:E; simpl.
  - now rewrite (eqb_other k key other NE E).
  - now rewrite IH.
Qed.

Lemma ownProperty_insertIndexed_other
  (properties : list (string * JsonValue)) (key other : string) (n : N)
  (v : JsonValue) :
  key <> other ->
  ownProperty (insertIndexed properties key n v) other
  = ownProperty properties other.
Proof.
  intros NE. apply String.eqb_neq in NE.
  induction properties as [| [k old] rest IH]; simpl.
  - now rewrite NE.
  - destruct (arrayIndex k) as [m |]; [destruct (N.ltb m n) |]; simpl;
      rewrite ?NE, ?IH; reflexivity.
Qed.

Lemma ownProperty_app_other (properties : list (string * JsonValue))
  (key other : string) (v : JsonValue) :
  key <> other ->
  ownProperty (properties ++ [(key, v)]) other = ownProperty properties other.
Proof.
  intros NE. apply String.eqb_neq in NE.
  induction properties as [| [k old] rest IH]; simpl.
  - now rewrite NE.
  - now rewrite IH.
Qed.

Lemma ownProperty_setProperty_other (properties : list (string * JsonValue))
  (key other : string) (v : JsonValue) :
  key <> other ->
  ownProperty (setProperty properties key v) other
  = ownProperty properties other.
Proof.
  intros NE. unfold setProperty. destruct (hasOwn properties key).
  - now apply ownProperty_replaceProperty_other.
  - destruct (arrayIndex key);
      [now apply ownProperty_insertIndexed_other
      | now apply ownProperty_app_other].
Qed.

Lemma replaceProperty_replaceProperty (properties : list (string * JsonValue))
  (key : string) (v w : JsonValue) :
  replaceProperty (replaceProperty properties key v) key w
  = replaceProperty properties key w.
Proof.
  induction properties as [| [k old] rest IH]; simpl; [reflexivity |].
  destruct (String.eqb k key) eqn:E; simpl; rewrite E; congruence.
Qed.

Lemma replaceProperty_insertIndexed (properties : list (string * JsonValue))
  (key : string) (n : N) (v w : JsonValue) :
  hasOwn properties key = false ->
  replaceProperty (insertIndexed properties key n v) key w
  = insertIndexed properties key n w.
Proof.
  unfold hasOwn.
  induction properties as [| [k old] rest IH]; simpl.
  - now rewrite String.eqb_refl.
  - destruct (String.eqb k key) eqn:E; [discriminate |]. intros H.
    destruct (arrayIndex k) as [m |]; [destruct (N.ltb m n) |]; simpl;
      rewrite ?E, ?String.eqb_refl, ?IH; auto.
Qed.

Lemma replaceProperty_app_new (properties : list (string * JsonValue))
  (key : string) (v w : JsonValue) :
  hasOwn properties key = false ->
  replaceProperty (properties ++ [(key, v)]) key w
  = (properties ++ [(key, w)])%list.
Proof.
  unfold hasOwn.
  induction properties as [| [k old] rest IH]; simpl.
  - now rewrite String.eqb_refl.
  - destruct (String.eqb k key); [discriminate |]. intros H.
    now rewrite IH.
Qed.

Lemma replaceProperty_setProperty (properties : list (string * JsonValue))
  (key : string) (v w : JsonValue) :
  replaceProperty (setProperty properties key v) key w
  = setProperty properties key w.
Proof.
  unfold setProperty. destruct (hasOwn properties key) eqn:H.
  - apply replaceProperty_replaceProperty.
  - destruct (arrayIndex key);
      [now apply replaceProperty_insertIndexed
      | now apply replaceProperty_app_new].
Qed.

Lemma setProperty_setProperty (properties : list (string * JsonValue))
  (key : string) (v w : JsonValue) :
  setProperty (setProperty properties key v) key w = setProperty properties key w.
Proof.
  unfold setProperty at 1. rewrite hasOwn_setProperty.
  apply replaceProperty_setProperty.
Qed.

Lemma replaceProperty_same (properties : list (string * JsonValue))
  (key : string) (v : JsonValue) :
  ownProperty properties key = Some v ->
  replaceProperty properties key v = properties.
Proof.
  induction properties as [| [k old] rest IH]; simpl; [reflexivity |].
  destruct (String.eqb k key); intros H.
  - now injection H as ->.
  - now rewrite IH.
Qed.

Lemma getElement_setElement (elements : list JsonValue) (index : nat)
  (v : JsonValue) :
  getElement (setElement elements index v) index = v.
Proof.
  unfold getElement. revert elements.
  induction index as [| i IH]; intros [| e rest]; simpl; auto.
Qed.

Lemma setElement_setElement (elements : list JsonValue) (index : nat)
  (v w : JsonValue) :
  setElement (setElement elements index v) index w = setElement elements index w.
Proof.
  revert elements.
  induction index as [| i IH]; intros [| e rest]; simpl; auto;
    now rewrite IH.
Qed.

Lemma setElement_getElement (elements : list JsonValue) (index : nat) :
  index < List.length elements ->
  setElement elements index (getElement elements index) = elements.
Proof.
  unfold getElement. revert elements.
  induction index as [| i IH]; intros [| e rest]; simpl; intros H;
    try lia; [reflexivity |].
  rewrite IH; [reflexivity | lia].
Qed.

Lemma length_setElement (elements : list JsonValue) (index : nat)
  (v : JsonValue) :
  index < List.length (setElement elements index v).
Proof.
  revert elements.
  induction index as [| i IH]; intros [| e rest]; simpl; try lia.
  - specialize (IH []). lia.
  - specialize (IH rest). lia.
Qed.

Lemma getElement_setElement_other (elements : list JsonValue)
  (index other : nat) (v : JsonValue) :
  index <> other ->
  getElement (setElement elements index v) other = getElement elements other.
Proof.
  unfold getElement. revert elements other.
  induction index as [| i IH]; intros [| e rest] [| j] NE; simpl;
    try congruence; try reflexivity.
  - now destruct j.
  - rewrite IH by congruence. now destruct j.
  - apply IH. congruence.
Qed.

Lemma getElement_defined (elements : list JsonValue) (index : nat) :
  getElement elements index <> JUndefined -> index < List.length elements.
Proof.
  unfold getElement. intros H.
  destruct (Nat.lt_ge_cases index (List.length elements)) as [L | L];
    [exact L |].
  now rewrite nth_overflow in H.
Qed.

(** *** Members, assignments and what is put back *)

Lemma member_assign (value : JsValue) (current : fragment) (v : JsonValue) :
  storesOwn value current = true ->
  member (assign value current v) current = Doc v.
Proof.
  destruct value as [[] | |], current; simpl; try discriminate; intros _.
  - now rewrite getElement_setElement.
  - unfold getProperty. now rewrite ownProperty_setProperty.
Qed.

Lemma assign_assign (value : JsValue) (current : fragment) (v w : JsonValue) :
  assign (assign value current v) current w = assign value current w.
Proof.
  destruct value as [[] | |], current; simpl; try reflexivity.
  - now rewrite setElement_setElement.
  - now rewrite setProperty_setProperty.
Qed.

Lemma putBack_assign (value : JsValue) (current : fragment)
  (v c : JsonValue) :
  storesOwn value current = true ->
  putBack (assign value current v) current (Doc c) = assign value current c.
Proof.
  destruct value as [[] | |], current; simpl; try discriminate; intros _.
  - pose proof (length_setElement elements index v) as L.
    apply Nat.ltb_lt in L. rewrite L. now rewrite setElement_setElement.
  - rewrite hasOwn_setProperty. now rewrite replaceProperty_setProperty.
Qed.

Lemma putBack_member (value : JsValue) (current : fragment) :
  putBack value current (member value current) = value.
Proof.
  destruct value as [[] | |], current; simpl; try reflexivity.
  - destruct (Nat.ltb index (List.length elements)) eqn:L; [| reflexivity].
    apply Nat.ltb_lt in L. now rewrite setElement_getElement.
  - unfold getProperty, hasOwn.
    destruct (ownProperty properties key) as [v |] eqn:E.
    + now rewrite replaceProperty_same.
    + now destruct (inheritedMember key) as [[] | |].
Qed.

Lemma putBack_not_doc (value : JsValue) (current : fragment)
  (child : JsValue) :
  (forall c, child <> Doc c) -> putBack value current child = value.
Proof.
  intros H. destruct value as [[] | |], current, child as [c | |];
    try reflexivity; now elim (H c).
Qed.

(** A member that is a value of the document other than [undefined] is an
    own property or an element. *)
Lemma putBack_own (value : JsValue) (current : fragment) (x c : JsonValue) :
  member value current = Doc x -> x <> JUndefined ->
  putBack value current (Doc c) = assign value current c.
Proof.
  intros H NU.
  destruct value as [[] | |], current; try reflexivity; simpl in *.
  - injection H as H.
    assert (L : index < List.length elements)
      by (apply getElement_defined; congruence).
    apply Nat.ltb_lt in L. now rewrite L.
  - unfold getProperty, setProperty, hasOwn in *.
    destruct (ownProperty properties key) as [v |]; [reflexivity |].
    unfold inheritedMember in H.
    destruct (isProto key); [discriminate |].
    destruct (isInheritedFunction key); [discriminate |].
    injection H as <-. congruence.
Qed.

Lemma accepts_assign (value : JsValue) (current other : fragment)
  (v : JsonValue) :
  accepts (assign value current v) other = accepts value other.
Proof. destruct value as [[] | |], current, other; reflexivity. Qed.

Lemma accepts_putBack (value : JsValue) (current other : fragment)
  (child : JsValue) :
  accepts (putBack value current child) other = accepts value other.
Proof.
  destruct value as [[] | |], current, child as [c | |], other;
    try reflexivity; simpl.
  - now destruct (Nat.ltb index (List.length elements)).
  - now destruct (Nat.ltb index (List.length elements)).
  - now destruct (hasOwn properties key).
  - now destruct (hasOwn properties key).
Qed.


Lemma accepts_emptyFor (next : fragment) : accepts (emptyFor next) next = true.
Proof. destruct next; reflexivity. Qed.

Lemma storesOwn_emptyFor (next : fragment) :
  notProto next = true -> storesOwn (emptyFor next) next = true.
Proof. destruct next; simpl; [now intros -> | reflexivity]. Qed.

Lemma emptyFor_container (next : fragment) :
  looseUndefined (emptyFor next) = false.
Proof. destruct next; reflexivity. Qed.

(** When a fragment is not the key [__proto__], an assignment to a container
    of the document stores an own property or an element. *)
Lemma storesOwn_doc (d : JsonValue) (current : fragment) :
  accepts (Doc d) current = true -> notProto current = true ->
  storesOwn (Doc d) current = true.
Proof.
  destruct d, current; simpl; try discriminate; try reflexivity.
  intros _ ->. apply orb_true_r.
Qed.

(** The three tests of a reducer, read off the shapes. *)
Lemma reducer_tests (value : JsValue) (current : fragment) :
  (if looseUndefined value || negb (typeofObject value) then false
   else (typeofString current && negb (isArray value))
        || (typeofNumber current && isArray value))
  = accepts value current.
Proof. destruct value as [[] | |], current; reflexivity. Qed.

Lemma getReducer_accepts (value : JsValue) (current : fragment) :
  getReducer value current
  = if accepts value current then member value current else Doc JUndefined.
Proof. destruct value as [[] | |], current; reflexivity. Qed.

Lemma setWalk_cons (value : JsValue) (current : fragment)
  (rest : list fragment) (newValue : JsonValue) :
  setWalk value (current :: rest) newValue
  = if accepts value current then
      match setStore value current rest newValue with
      | Stores stored =>
          match setWalk (member stored current) rest newValue with
          | Some (result, child) => Some (result, putBack stored current child)
          | None => None
          end
      | Raises => Some (Doc JUndefined, value)
      | Leaves => None
      end
    else Some (Doc JUndefined, value).
Proof. destruct value as [[] | |], current; reflexivity. Qed.

Lemma getFrom_cons (value : JsValue) (current : fragment)
  (rest : list fragment) :
  getFrom value (current :: rest) = getFrom (getReducer value current) rest.
Proof. reflexivity. Qed.

Lemma getFrom_app (value : JsValue) (p q : list fragment) :
  getFrom value (p ++ q)%list = getFrom (getFrom value p) q.
Proof. apply fold_left_app. Qed.

Lemma getValueFromFragments_cons (root : JsonValue) (current : fragment)
  (rest : list fragment) :
  getValueFromFragments root (current :: rest)
  = getFrom (getReducer root current) rest.
Proof. reflexivity. Qed.

Lemma getValueFromFragments_app (root : JsonValue) (p q : list fragment) :
  getValueFromFragments root (p ++ q)%list
  = getFrom (getValueFromFragments root p) q.
Proof. apply fold_left_app. Qed.

(** Once the accumulator is [undefined] it stays so, and from a function
    the next step gives [undefined]. *)
Lemma getFrom_undefined (fragments : list fragment) :
  getFrom JUndefined fragments = JUndefined.
Proof. induction fragments as [| c rest IH]; [reflexivity | exact IH]. Qed.

Lemma getFrom_blocked (value : JsValue) (fragments : list fragment) :
  looseUndefined value || negb (typeofObject value) = true ->
  fragments <> [] ->
  getFrom value fragments = JUndefined.
Proof.
  intros B NE. destruct fragments as [| c rest]; [congruence |].
  rewrite getFrom_cons. unfold getReducer. rewrite B.
  apply getFrom_undefined.
Qed.

Lemma getFrom_nullish (value : JsValue) (fragments : list fragment) :
  looseUndefined value = true ->
  looseUndefined (getFrom value fragments) = true.
Proof.
  intros H. destruct fragments as [| c rest]; [exact H |].
  rewrite getFrom_blocked; [reflexivity | now rewrite H | discriminate].
Qed.

Lemma getFrom_emptyFor (next : fragment) (current : fragment)
  (rest : list fragment) :
  plainFragment current = true \/ (notProto current = true /\ rest <> []) ->
  getFrom (emptyFor next) (current :: rest) = JUndefined.
Proof.
  intros H. rewrite getFrom_cons, getReducer_accepts.
  destruct (accepts (emptyFor next) current) eqn:A;
    [| apply getFrom_undefined].
  destruct next as [k | n], current as [key | i]; try discriminate.
  - change (member (emptyFor (FString k)) (FString key))
      with (inheritedMember key).
    unfold inheritedMember. simpl in H. unfold inheritedName in H.
    destruct (isProto key); [destruct H as [H | [H _]]; discriminate |].
    destruct (isInheritedFunction key); [| apply getFrom_undefined].
    destruct H as [H | [_ H]]; [discriminate |].
    now apply getFrom_blocked.
  - change (member (emptyFor (FNumber n)) (FNumber i))
      with (Doc (getElement [] i)).
    replace (getElement [] i) with JUndefined by now destruct i.
    apply getFrom_undefined.
Qed.

(** *** Steps of the set walk *)

Lemma accepts_store (value : JsValue) (current other : fragment)
  (rest : list fragment) (newValue : JsonValue) :
  accepts (store value current rest newValue) other = accepts value other.
Proof.
  unfold store. destruct rest as [| next more]; [apply accepts_assign |].
  destruct (looseUndefined (member value current));
    [apply accepts_assign | reflexivity].
Qed.

Lemma setStore_own (value : JsValue) (current : fragment)
  (rest : list fragment) (newValue : JsonValue) :
  storesOwn value current = true ->
  setStore value current rest newValue
  = Stores (store value current rest newValue).
Proof.
  intros S. unfold setStore, store, assignMember. rewrite S.
  destruct rest; [reflexivity |].
  now destruct (looseUndefined (member value current)).
Qed.

Lemma setStore_read (value : JsValue) (current : fragment)
  (rest : list fragment) (newValue : JsonValue) :
  rest <> [] ->
  looseUndefined (member value current) = false ->
  setStore value current rest newValue = Stores value.
Proof.
  intros NE N. unfold setStore. destruct rest; [congruence | now rewrite N].
Qed.

Lemma member_store (value : JsValue) (current : fragment)
  (rest : list fragment) (newValue : JsonValue) :
  storesOwn value current = true ->
  member (store value current rest newValue) current
  = match rest with
    | [] => Doc newValue
    | next :: _ =>
        if looseUndefined (member value current) then Doc (emptyFor next)
        else member value current
    end.
Proof.
  intros S. unfold store. destruct rest as [| next more].
  - now apply member_assign.
  - destruct (looseUndefined (member value current));
      [now apply member_assign | reflexivity].
Qed.

Lemma setWalk_step (value : JsValue) (current : fragment)
  (rest : list fragment) (newValue : JsonValue) :
  accepts value current = true ->
  storesOwn value current = true ->
  setWalk value (current :: rest) newValue
  = match setWalk (member (store value current rest newValue) current)
            rest newValue with
    | Some (result, child) =>
        Some (result, putBack (store value current rest newValue) current child)
    | None => None
    end.
Proof.
  intros A S. now rewrite setWalk_cons, A, setStore_own.
Qed.

Lemma setWalk_not_accepted (value : JsValue) (current : fragment)
  (rest : list fragment) (newValue : JsonValue) :
  accepts value current = false ->
  setWalk value (current :: rest) newValue = Some (Doc JUndefined, value).
Proof. intros A. now rewrite setWalk_cons, A. Qed.

Lemma setWalk_function (key : string) (fragments : list fragment)
  (newValue : JsonValue) :
  fragments <> [] ->
  setWalk (BuiltinFunction key) fragments newValue
  = Some (Doc JUndefined, BuiltinFunction key).
Proof. destruct fragments; [congruence | reflexivity]. Qed.

Lemma isDoc_assign (value : JsValue) (current : fragment) (v : JsonValue) :
  isDoc (assign value current v) = isDoc value.
Proof. destruct value as [[] | |], current; reflexivity. Qed.

Lemma isDoc_putBack (value : JsValue) (current : fragment) (child : JsValue) :
  isDoc (putBack value current child) = isDoc value.
Proof.
  destruct value as [[] | |], current, child as [c | |]; try reflexivity;
    simpl.
  - now destruct (Nat.ltb index (List.length elements)).
  - now destruct (hasOwn properties key).
Qed.

Lemma isDoc_setStore (value stored : JsValue) (current : fragment)
  (rest : list fragment) (newValue : JsonValue) :
  setStore value current rest newValue = Stores stored ->
  isDoc stored = isDoc value.
Proof.
  assert (G : forall v, assignMember value current v = Stores stored ->
                        isDoc stored = isDoc value).
  { intros v. unfold assignMember.
    destruct (storesOwn value current).
    - intros H. injection H as <-. apply isDoc_assign.
    - destruct value as [[] | |], current; try (intros H; now injection H as <-).
      + destruct (isObject v || isNull v); [discriminate |].
        intros H. now injection H as <-.
      + destruct (isProto key); [| discriminate].
        destruct (isObject v); [discriminate |].
        intros H. now injection H as <-. }
  unfold setStore. destruct rest as [| next more]; [apply G |].
  destruct (looseUndefined (member value current)); [apply G |].
  intros H. now injection H as <-.
Qed.

(** The second component of a walk is the state of the value it started
    from: a value of the document stays one. *)
Lemma isDoc_setWalk (fragments : list fragment) (value result state : JsValue)
  (newValue : JsonValue) :
  setWalk value fragments newValue = Some (result, state) ->
  isDoc state = isDoc value.
Proof.
  destruct fragments as [| current rest].
  - simpl. intros H. now injection H as _ <-.
  - rewrite setWalk_cons. destruct (accepts value current).
    + destruct (setStore value current rest newValue) as [stored | |] eqn:E;
        try discriminate.
      * destruct (setWalk (member stored current) rest newValue)
          as [[r child] |]; [| discriminate].
        intros H. injection H as _ <-.
        rewrite isDoc_putBack. now apply isDoc_setStore in E.
      * intros H. now injection H as _ <-.
    + intros H. now injection H as _ <-.
Qed.

Lemma setWalk_doc_state (fragments : list fragment) (d : JsonValue)
  (result state : JsValue) (newValue : JsonValue) :
  setWalk (Doc d) fragments newValue = Some (result, state) ->
  exists d', state = Doc d'.
Proof.
  intros H. apply isDoc_setWalk in H.
  destruct state as [d' | |]; [eauto | discriminate ..].
Qed.

Lemma member_not_prototype (value : JsValue) (current : fragment) :
  storesOwn value current = true -> member value current <> ObjectPrototype.
Proof.
  destruct value as [d | | f]; [| discriminate ..].
  destruct d as [| | | | | elements | properties], current as [k | i];
    try discriminate.
  simpl. unfold getProperty, hasOwn, inheritedMember.
  destruct (ownProperty properties k); [discriminate |].
  simpl. intros H. apply negb_true_iff in H. rewrite H.
  now destruct (isInheritedFunction k).
Qed.

(** What a step that stores own properties does, by what it finds or puts
    at [current]: a value of the document, in which the walk continues, or a
    function of [Object.prototype], at which it stops. *)
Lemma setWalk_step_cases (value : JsValue) (current : fragment)
  (rest : list fragment) (newValue : JsonValue) :
  accepts value current = true ->
  storesOwn value current = true ->
  (exists x,
      member (store value current rest newValue) current = Doc x
      /\ setWalk value (current :: rest) newValue
         = match setWalk (Doc x) rest newValue with
           | Some (result, Doc c) => Some (result, assign value current c)
           | _ => None
           end)
  \/ (exists key,
         member value current = BuiltinFunction key
         /\ rest <> []
         /\ setWalk value (current :: rest) newValue
            = Some (Doc JUndefined, value)).
Proof.
  intros A S. rewrite (setWalk_step value current rest newValue A S).
  pose proof (member_store value current rest newValue S) as M.
  destruct (member (store value current rest newValue) current)
    as [x | | key] eqn:E.
  - left. exists x. split; [reflexivity |].
    destruct (setWalk (Doc x) rest newValue) as [[r child] |] eqn:W;
      [| reflexivity].
    destruct (setWalk_doc_state _ _ _ _ _ W) as [c ->]. f_equal. f_equal.
    unfold store in *. destruct rest as [| next more].
    + now apply putBack_assign.
    + destruct (looseUndefined (member value current)) eqn:U.
      * now apply putBack_assign.
      * apply putBack_own with x; [congruence |].
        intros ->. rewrite <- M in U. discriminate.
  - exfalso. destruct rest as [| next more]; [discriminate |].
    destruct (looseUndefined (member value current)); [discriminate |].
    symmetry in M. now apply member_not_prototype in M.
  - right. exists key. destruct rest as [| next more]; [discriminate |].
    destruct (looseUndefined (member value current)) eqn:U; [discriminate |].
    repeat split; [congruence | discriminate |].
    rewrite setWalk_function by discriminate.
    rewrite putBack_not_doc by discriminate.
    unfold store. now rewrite U.
Qed.

(** *** A walk that crosses existing members first *)

Lemma getFrom_step_defined (value : JsValue) (current : fragment)
  (rest : list fragment) :
  looseUndefined (getFrom value (current :: rest)) = false ->
  accepts value current = true
  /\ looseUndefined (member value current) = false
  /\ getFrom value (current :: rest) = getFrom (member value current) rest.
Proof.
  rewrite getFrom_cons, getReducer_accepts. intros H.
  destruct (accepts value current).
  - repeat split. destruct (looseUndefined (member value current)) eqn:E;
      [| reflexivity].
    now rewrite (getFrom_nullish _ rest E) in H.
  - now rewrite getFrom_undefined in H.
Qed.

(** Below a prefix [p] that leads to something other than [undefined] and
    [null] the set walk assigns nothing on the way: it is the walk from what
    [p] leads to, put back along [p]. *)
Lemma setWalk_through (p : list fragment) (value : JsValue)
  (q : list fragment) (newValue : JsonValue) :
  q <> [] ->
  looseUndefined (getFrom value p) = false ->
  setWalk value (p ++ q) newValue
  = match setWalk (getFrom value p) q newValue with
    | Some (result, target) => Some (result, putAlong value p target)
    | None => None
    end.
Proof.
  intros Q. revert value. induction p as [| c p' IH]; intros value N.
  - simpl. now destruct (setWalk value q newValue) as [[r t] |].
  - destruct (getFrom_step_defined value c p' N) as (A & M & E).
    rewrite E in *. simpl app. rewrite setWalk_cons, A.
    rewrite setStore_read; [| | exact M].
    2: { intros H. apply app_eq_nil in H. now destruct H. }
    rewrite (IH (member value c) N).
    now destruct (setWalk (getFrom (member value c) p') q newValue)
      as [[r t] |].
Qed.

Lemma putAlong_same (p : list fragment) (value : JsValue) :
  looseUndefined (getFrom value p) = false ->
  putAlong value p (getFrom value p) = value.
Proof.
  revert value. induction p as [| c p' IH]; intros value N; [reflexivity |].
  destruct (getFrom_step_defined value c p' N) as (A & M & E).
  rewrite E in *. simpl. rewrite (IH _ N). apply putBack_member.
Qed.

(** The walk stops, and nothing is assigned, where the value reached is
    there but is no container of the kind the next fragment selects from. *)
Lemma setWalk_rejected (p : list fragment) (value : JsValue)
  (current : fragment) (rest : list fragment) (newValue : JsonValue) :
  looseUndefined (getFrom value p) = false ->
  accepts (getFrom value p) current = false ->
  setWalk value (p ++ current :: rest) newValue = Some (Doc JUndefined, value).
Proof.
  intros N A. rewrite setWalk_through by (discriminate || exact N).
  rewrite setWalk_not_accepted by exact A.
  now rewrite putAlong_same.
Qed.




(** *** Walks without the key [__proto__] *)

Lemma some_pair {A B : Type} (a a' : A) (b b' : B) :
  Some (a, b) = Some (a', b') -> a = a' /\ b = b'.
Proof. intros H. now injection H. Qed.

Lemma plainFragment_notProto (current : fragment) :
  plainFragment current = true -> notProto current = true.
Proof.
  destruct current as [key | index]; [| reflexivity]. simpl.
  unfold inheritedName. now destruct (isProto key).
Qed.

Lemma plainPath_noProto (fragments : list fragment) :
  plainPath fragments = true -> noProto fragments = true.
Proof.
  unfold plainPath, noProto.
  induction fragments as [| c rest IH]; simpl; [reflexivity |].
  intros H. apply andb_true_iff in H as [H1 H2].
  now rewrite (plainFragment_notProto c H1), IH.
Qed.

Lemma noProto_app (p q : list fragment) :
  noProto (p ++ q) = noProto p && noProto q.
Proof. apply forallb_app. Qed.

Lemma setValueFromFragments_inside
  (outside : JsonValue -> list fragment -> JsonValue -> JsValue * JsonValue)
  (root : JsonValue) (fragments : list fragment) (newValue : JsonValue)
  (result : JsValue) (document : JsonValue) :
  setWalk root fragments newValue = Some (result, Doc document) ->
  setValueFromFragments outside root fragments newValue = (result, document).
Proof. intros H. unfold setValueFromFragments. now rewrite H. Qed.

Lemma member_store_inner (value : JsValue) (current : fragment)
  (rest : list fragment) (newValue : JsonValue) :
  storesOwn value current = true ->
  rest <> [] ->
  member (store value current rest newValue) current
  = if looseUndefined (member value current)
    then Doc (emptyFor (hd current rest))
    else member value current.
Proof.
  intros S NE. rewrite member_store by exact S.
  destruct rest; [congruence | reflexivity].
Qed.

Lemma assign_doc (d : JsonValue) (current : fragment) (v : JsonValue) :
  exists d', assign (Doc d) current v = Doc d'.
Proof. destruct d, current; simpl; eauto. Qed.

(** Without the key [__proto__] the walk stays in the document. *)
Lemma setWalk_total (fragments : list fragment) (d : JsonValue)
  (newValue : JsonValue) :
  noProto fragments = true ->
  exists result d',
    setWalk (Doc d) fragments newValue = Some (result, Doc d').
Proof.
  revert d. induction fragments as [| c rest IH]; intros d NP.
  - simpl. eauto.
  - simpl in NP. apply andb_true_iff in NP as [NC NR].
    destruct (accepts d c) eqn:A.
    2: { rewrite setWalk_not_accepted by exact A. eauto. }
    destruct (setWalk_step_cases d c rest newValue A (storesOwn_doc d c A NC))
      as [(x & _ & ->) | (key & _ & _ & ->)]; [| eauto].
    destruct (IH x NR) as (r & c' & ->).
    destruct (assign_doc d c c') as [d' ->]. eauto.
Qed.

Lemma setWalk_container (fragments : list fragment) (d : JsonValue)
  (result : JsValue) (d' : JsonValue) (newValue : JsonValue) :
  fragments <> [] ->
  looseUndefined (Doc d) = false ->
  setWalk (Doc d) fragments newValue = Some (result, Doc d') ->
  looseUndefined (Doc d') = false /\ isArray (Doc d') = isArray (Doc d).
Proof.
  intros NE N. destruct fragments as [| c rest]; [congruence |].
  rewrite setWalk_cons. destruct (accepts d c) eqn:A.
  2: { intros H. injection H as _ <-. auto. }
  destruct (setStore d c rest newValue) as [stored | |] eqn:E;
    try discriminate.
  2: { intros H. injection H as _ <-. auto. }
  destruct (setWalk (member stored c) rest newValue) as [[r child] |];
    [| discriminate].
  intros H. injection H as _ H.
  assert (K : looseUndefined stored = false /\ isArray stored = isArray d).
  { clear H. unfold setStore, assignMember in E.
    destruct d, c; try discriminate;
      destruct rest as [| next more]; simpl in E;
      repeat match type of E with
             | (if ?b then _ else _) = _ => destruct b
             end;
      try discriminate; injection E as <-; auto. }
  destruct K as [K1 K2]. rewrite <- K1, <- K2, <- H.
  destruct stored as [[] | |], c, child as [cc | |]; try (split; reflexivity);
    simpl.
  - now destruct (Nat.ltb index (List.length elements)).
  - now destruct (hasOwn properties key).
Qed.


(** Written, then read: along a path without the key [__proto__], where the
    set returns something other than [undefined], reading the same path in
    the document it leaves gives the value written. *)
Lemma setWalk_get_same (fragments : list fragment) (d : JsonValue)
  (result state : JsValue) (newValue : JsonValue) :
  noProto fragments = true ->
  fragments <> [] ->
  setWalk (Doc d) fragments newValue = Some (result, state) ->
  result <> Doc JUndefined ->
  getFrom state fragments = Doc newValue.
Proof.
  revert d result state.
  induction fragments as [| c rest IH]; intros d result state NP NE W OK;
    [congruence |].
  simpl in NP. apply andb_true_iff in NP as [NC NR].
  destruct (accepts d c) eqn:A.
  2: { rewrite setWalk_not_accepted in W by exact A.
       injection W as <- _. congruence. }
  pose proof (storesOwn_doc d c A NC) as S.
  destruct (setWalk_step_cases d c rest newValue A S)
    as [(x & M & E) | (key & _ & _ & E)]; rewrite E in W.
  2: { injection W as <- _. congruence. }
  destruct (setWalk (Doc x) rest newValue) as [[r [cc | |]] |] eqn:WX;
    try discriminate.
  apply some_pair in W as [<- <-].
  rewrite getFrom_cons, getReducer_accepts, accepts_assign, A.
  rewrite member_assign by exact S.
  destruct rest as [| next more].
  - simpl in WX. injection WX as _ <-.
    rewrite member_store in M by exact S. now rewrite <- M.
  - apply (IH x r (Doc cc)); [exact NR | discriminate | exact WX | exact OK].
Qed.

(** In a slot that holds nothing, along keys that name no member of
    [Object.prototype], the walk goes through to the end. *)
Lemma setWalk_fresh (rest : list fragment) (d : JsonValue)
  (current : fragment) (newValue : JsonValue) :
  plainPath (current :: rest) = true ->
  accepts d current = true ->
  looseUndefined (member d current) = true ->
  exists d', setWalk (Doc d) (current :: rest) newValue
             = Some (Doc newValue, Doc d').
Proof.
  revert d current.
  induction rest as [| next more IH]; intros d current PP A U.
  - simpl in PP. apply andb_true_iff in PP as [PC _].
    pose proof (storesOwn_doc d current A (plainFragment_notProto _ PC)) as S.
    destruct (setWalk_step_cases d current [] newValue A S)
      as [(x & M & E) | (key & _ & NE & _)]; [| congruence].
    rewrite member_store in M by exact S. injection M as <-.
    rewrite E. cbn [setWalk].
    destruct (assign_doc d current newValue) as [d' ->]. eauto.
  - change (plainPath (current :: next :: more))
      with (plainFragment current && plainPath (next :: more)) in PP.
    apply andb_true_iff in PP as [PC PR].
    pose proof (storesOwn_doc d current A (plainFragment_notProto _ PC)) as S.
    destruct (setWalk_step_cases d current (next :: more) newValue A S)
      as [(x & M & E) | (key & F & _ & _)].
    2: { rewrite F in U. discriminate. }
    rewrite member_store, U in M by exact S. injection M as <-.
    rewrite E.
    destruct (IH (emptyFor next) next PR (accepts_emptyFor next))
      as (c' & ->).
    + pose proof PR as PN. simpl in PN. apply andb_true_iff in PN as [PN _].
      destruct next as [key | [| i]]; try reflexivity.
      simpl. unfold getProperty, inheritedMember. simpl.
      simpl in PN. unfold inheritedName in PN.
      destruct (isProto key); [discriminate |].
      now destruct (isInheritedFunction key).
    + destruct (assign_doc d current c') as [d' ->]. eauto.
Qed.

(** Along keys that name no member of [Object.prototype], a set of a value
    other than [undefined] that returns [undefined] has assigned nothing. *)
Lemma setWalk_failure_unchanged (fragments : list fragment) (d : JsonValue)
  (state : JsValue) (newValue : JsonValue) :
  plainPath fragments = true ->
  newValue <> JUndefined ->
  setWalk (Doc d) fragments newValue = Some (Doc JUndefined, state) ->
  state = Doc d.
Proof.
  intros PP NV. revert d state PP.
  induction fragments as [| c rest IH]; intros d state PP W.
  - simpl in W. now injection W as _ <-.
  - pose proof PP as PP'. simpl in PP'.
    apply andb_true_iff in PP' as [PC PR].
    destruct (accepts d c) eqn:A.
    2: { rewrite setWalk_not_accepted in W by exact A.
         now injection W as <-. }
    pose proof (storesOwn_doc d c A (plainFragment_notProto _ PC)) as S.
    destruct (looseUndefined (member d c)) eqn:U.
    { destruct (setWalk_fresh rest d c newValue PP A U) as (d' & E).
      rewrite E in W. injection W as W _. congruence. }
    destruct (setWalk_step_cases d c rest newValue A S)
      as [(x & M & E) | (key & _ & _ & E)]; rewrite E in W.
    2: { now injection W as <-. }
    destruct rest as [| next more].
    + simpl in W. rewrite member_store in M by exact S.
      injection M as <-. injection W as W _. congruence.
    + rewrite member_store, U in M by exact S.
      destruct (setWalk (Doc x) (next :: more) newValue)
        as [[r [cc | |]] |] eqn:WX; try discriminate.
      apply some_pair in W as [-> <-].
      apply (IH x (Doc cc) PR) in WX. injection WX as ->.
      rewrite <- (putBack_own d c x x M).
      * rewrite <- M. apply putBack_member.
      * intros ->. rewrite M in U. discriminate.
Qed.

Lemma storesOwn_assign (value : JsValue) (current : fragment)
  (v : JsonValue) :
  storesOwn value current = true ->
  storesOwn (assign value current v) current = true.
Proof.
  destruct value as [[] | |], current; simpl; try discriminate; intros H;
    [reflexivity |].
  now rewrite hasOwn_setProperty.
Qed.

Lemma getFrom_function_step (key : string) (current : fragment)
  (rest : list fragment) :
  getFrom (BuiltinFunction key) (current :: rest) = JUndefined.
Proof. apply getFrom_blocked; [reflexivity | discriminate]. Qed.

(** What the step leaves at [current] when it is not the last one. *)
Lemma member_store_next (d : JsonValue) (current next : fragment)
  (more : list fragment) (newValue x : JsonValue) :
  storesOwn d current = true ->
  member (store d current (next :: more) newValue) current = Doc x ->
  looseUndefined (Doc x) = false
  /\ (looseUndefined (member d current) = true -> x = emptyFor next)
  /\ (looseUndefined (member d current) = false -> member d current = Doc x).
Proof.
  intros S M. rewrite member_store in M by exact S.
  destruct (looseUndefined (member d current)) eqn:U.
  - injection M as <-. split; [apply emptyFor_container |].
    split; [reflexivity | discriminate].
  - split; [now rewrite <- M |]. split; [discriminate | now intros _].
Qed.

(** The last write wins. *)
Lemma setWalk_twice (fragments : list fragment) (d d1 : JsonValue)
  (r1 : JsValue) (v w : JsonValue) :
  noProto fragments = true ->
  setWalk (Doc d) fragments v = Some (r1, Doc d1) ->
  setWalk (Doc d1) fragments w = setWalk (Doc d) fragments w.
Proof.
  revert d d1 r1. induction fragments as [| c rest IH]; intros d d1 r1 NP W.
  - simpl in W. apply some_pair in W as [_ W]. now rewrite <- W.
  - simpl in NP. apply andb_true_iff in NP as [NC NR].
    destruct (accepts d c) eqn:A.
    2: { rewrite setWalk_not_accepted in W by exact A.
         apply some_pair in W as [_ W]. now rewrite <- W. }
    pose proof (storesOwn_doc d c A NC) as S.
    destruct (setWalk_step_cases d c rest v A S)
      as [(x & M & E) | (key & _ & _ & E)]; rewrite E in W.
    2: { apply some_pair in W as [_ W]. now rewrite <- W. }
    destruct (setWalk (Doc x) rest v) as [[r [c1 | |]] |] eqn:WX;
      try discriminate.
    apply some_pair in W as [_ W]. rewrite <- W.
    assert (A' : accepts (assign d c c1) c = true)
      by now rewrite accepts_assign.
    pose proof (storesOwn_assign d c c1 S) as S'.
    destruct rest as [| next more].
    + rewrite (setWalk_step _ c [] w A' S'), (setWalk_step _ c [] w A S).
      unfold store. now rewrite assign_assign.
    + destruct (member_store_next d c next more v x S M) as (NX & _ & _).
      destruct (setWalk_container (next :: more) x r c1 v) as [N1 _];
        [discriminate | exact NX | exact WX |].
      destruct (setWalk_step_cases _ c (next :: more) w A' S')
        as [(x' & M' & ->) | (key & F & _ & _)].
      2: { rewrite member_assign in F by exact S. discriminate. }
      rewrite member_store, member_assign, N1 in M' by assumption.
      injection M' as <-.
      destruct (setWalk_step_cases d c (next :: more) w A S)
        as [(x'' & M'' & ->) | (key & F & _ & _)].
      2: { rewrite member_store, F in M by exact S. discriminate. }
      rewrite member_store in M, M'' by exact S.
      rewrite M in M''. injection M'' as <-.
      rewrite (IH x c1 r NR WX).
      destruct (setWalk (Doc x) (next :: more) w) as [[r' [cc | |]] |];
        try reflexivity.
      now rewrite assign_assign.
Qed.

(** Along a path without the key [__proto__] a set returns the new value or
    [undefined]. *)
Lemma setWalk_result (fragments : list fragment) (d : JsonValue)
  (result state : JsValue) (newValue : JsonValue) :
  noProto fragments = true ->
  fragments <> [] ->
  setWalk (Doc d) fragments newValue = Some (result, state) ->
  result = Doc newValue \/ result = Doc JUndefined.
Proof.
  revert d result state.
  induction fragments as [| c rest IH]; intros d result state NP NE W;
    [congruence |].
  simpl in NP. apply andb_true_iff in NP as [NC NR].
  destruct (accepts d c) eqn:A.
  2: { rewrite setWalk_not_accepted in W by exact A.
       apply some_pair in W as [<- _]. now right. }
  pose proof (storesOwn_doc d c A NC) as S.
  destruct (setWalk_step_cases d c rest newValue A S)
    as [(x & M & E) | (key & _ & _ & E)]; rewrite E in W.
  2: { apply some_pair in W as [<- _]. now right. }
  destruct (setWalk (Doc x) rest newValue) as [[r [cc | |]] |] eqn:WX;
    try discriminate.
  apply some_pair in W as [<- _].
  destruct rest as [| next more].
  - simpl in WX. apply some_pair in WX as [<- _].
    rewrite member_store in M by exact S. left. now rewrite <- M.
  - apply (IH x r (Doc cc)); [exact NR | discriminate | exact WX].
Qed.

(** What can be read, along a path without the key [__proto__], can be
    overwritten. *)
Lemma setWalk_overwrites (fragments : list fragment) (d : JsonValue)
  (newValue : JsonValue) :
  noProto fragments = true ->
  fragments <> [] ->
  looseUndefined (getFrom (Doc d) fragments) = false ->
  exists d', setWalk (Doc d) fragments newValue = Some (Doc newValue, Doc d').
Proof.
  revert d. induction fragments as [| c rest IH]; intros d NP NE G;
    [congruence |].
  simpl in NP. apply andb_true_iff in NP as [NC NR].
  destruct (getFrom_step_defined d c rest G) as (A & N & E).
  pose proof (storesOwn_doc d c A NC) as S.
  destruct (setWalk_step_cases d c rest newValue A S)
    as [(x & M & ->) | (key & F & NR' & _)].
  2: { rewrite E, F in G. destruct rest; [congruence |].
       now rewrite getFrom_function_step in G. }
  destruct rest as [| next more].
  - rewrite member_store in M by exact S. injection M as <-.
    cbn [setWalk]. destruct (assign_doc d c newValue) as [d' ->]. eauto.
  - rewrite member_store, N in M by exact S.
    rewrite E, M in G.
    destruct (IH x NR ltac:(discriminate) G) as (c' & ->).
    destruct (assign_doc d c c') as [d' ->]. eauto.
Qed.

(** *** What a set leaves alone *)

Lemma getReducer_assign_other (value : JsValue) (current other : fragment)
  (v : JsonValue) :
  current <> other ->
  getReducer (assign value current v) other = getReducer value other.
Proof.
  intros NE. rewrite !getReducer_accepts, accepts_assign.
  destruct (accepts value other); [| reflexivity].
  destruct value as [[] | | name], current as [key | index],
    other as [k | i]; try reflexivity; simpl.
  - rewrite getElement_setElement_other; [reflexivity | congruence].
  - unfold getProperty.
    rewrite ownProperty_setProperty_other; [reflexivity | congruence].
Qed.

Lemma setWalk_frame (p : list fragment) (d : JsonValue)
  (current other : fragment) (rest q : list fragment)
  (result state : JsValue) (newValue : JsonValue) :
  noProto (p ++ current :: rest) = true ->
  plainFragment other = true ->
  current <> other ->
  setWalk (Doc d) (p ++ current :: rest) newValue = Some (result, state) ->
  getFrom state (p ++ other :: q) = getFrom (Doc d) (p ++ other :: q).
Proof.
  intros NP PO NE. revert d result state NP.
  induction p as [| e p' IH]; intros d result state NP W.
  - simpl app in *. simpl in NP. apply andb_true_iff in NP as [NC NR].
    destruct (accepts d current) eqn:A.
    2: { rewrite setWalk_not_accepted in W by exact A.
         apply some_pair in W as [_ <-]. reflexivity. }
    pose proof (storesOwn_doc d current A NC) as S.
    destruct (setWalk_step_cases d current rest newValue A S)
      as [(x & M & E) | (key & _ & _ & E)]; rewrite E in W.
    2: { apply some_pair in W as [_ <-]. reflexivity. }
    destruct (setWalk (Doc x) rest newValue) as [[r [cc | |]] |];
      try discriminate.
    apply some_pair in W as [_ <-].
    now rewrite !getFrom_cons, getReducer_assign_other.
  - simpl app in *. simpl in NP. apply andb_true_iff in NP as [NC NR].
    destruct (accepts d e) eqn:A.
    2: { rewrite setWalk_not_accepted in W by exact A.
         apply some_pair in W as [_ <-]. reflexivity. }
    pose proof (storesOwn_doc d e A NC) as S.
    destruct (setWalk_step_cases d e (p' ++ current :: rest) newValue A S)
      as [(x & M & E) | (key & _ & _ & E)]; rewrite E in W.
    2: { apply some_pair in W as [_ <-]. reflexivity. }
    destruct (setWalk (Doc x) (p' ++ current :: rest) newValue)
      as [[r [cc | |]] |] eqn:WX; try discriminate.
    apply some_pair in W as [_ <-].
    rewrite !getFrom_cons, !getReducer_accepts, accepts_assign, A.
    rewrite member_assign by exact S.
    rewrite (IH x r (Doc cc) NR WX).
    rewrite member_store_inner in M
      by (exact S || (intros Z; apply app_eq_nil in Z; now destruct Z)).
    destruct (looseUndefined (member d e)) eqn:U.
    + injection M as <-.
      rewrite (getFrom_blocked (member d e))
        by (try (now rewrite U); intros Z; apply app_eq_nil in Z;
            now destruct Z).
      destruct p' as [| e' p'']; simpl app.
      * apply getFrom_emptyFor. now left.
      * apply getFrom_emptyFor. right. simpl in NR.
        apply andb_true_iff in NR as [NE' _].
        split; [exact NE' |].
        intros Z; apply app_eq_nil in Z; now destruct Z.
    + now rewrite M.
Qed.

(** *** Reading and the paths that resolve *)

Lemma getFrom_resolves (fragments : list fragment) (root : JsonValue)
  (result : JsValue) :
  plainPath fragments = true ->
  getFrom (Doc root) fragments = result ->
  result <> Doc JUndefined ->
  exists v, result = Doc v /\ Resolves root fragments v.
Proof.
  revert root. induction fragments as [| c rest IH]; intros root PP G NU.
  - exists root. split; [now rewrite <- G | constructor].
  - simpl in PP. apply andb_true_iff in PP as [PC PR].
    rewrite getFrom_cons, getReducer_accepts in G.
    destruct (accepts root c) eqn:A.
    2: { rewrite getFrom_undefined in G. congruence. }
    destruct root as [| | | | | elements | properties], c as [key | index];
      try discriminate; simpl in G.
    + unfold getElement in G.
      destruct (nth_error elements index) as [entry |] eqn:N.
      * rewrite (nth_error_nth _ _ JUndefined N) in G.
        destruct (IH entry PR G NU) as (v & -> & R).
        exists v. split; [reflexivity |].
        now apply ResolvesIndex with (entry := entry).
      * apply nth_error_None in N.
        rewrite nth_overflow in G by exact N.
        rewrite getFrom_undefined in G. congruence.
    + unfold getProperty in G.
      destruct (ownProperty properties key) as [entry |] eqn:O.
      * destruct (IH entry PR G NU) as (v & -> & R).
        exists v. split; [reflexivity |].
        now apply ResolvesKey with (entry := entry).
      * unfold inheritedMember in G. simpl in PC. unfold inheritedName in PC.
        destruct (isProto key); [discriminate |].
        destruct (isInheritedFunction key); [discriminate |].
        rewrite getFrom_undefined in G. congruence.
Qed.

(** *** Into the empty object *)

Lemma setProperty_nil (key : string) (v : JsonValue) :
  setProperty [] key v = [(key, v)].
Proof. unfold setProperty. simpl. now destruct (arrayIndex key). Qed.

Lemma setWalk_nest (keys : list string) (key : string) (newValue : JsonValue) :
  plainPath (fragmentsOf (key :: keys)) = true ->
  setWalk (JObject []) (fragmentsOf (key :: keys)) newValue
  = Some (Doc newValue, Doc (nest (key :: keys) newValue)).
Proof.
  revert key. induction keys as [| k more IH]; intros key PP.
  - simpl in PP. rewrite andb_true_r in PP.
    change (fragmentsOf [key]) with [FString key].
    assert (NP : isProto key = false).
    { unfold inheritedName in PP. now destruct (isProto key). }
    assert (S : storesOwn (JObject []) (FString key) = true)
      by (simpl; now rewrite NP).
    rewrite setWalk_step by (reflexivity || exact S).
    rewrite member_store by exact S. cbn [setWalk].
    unfold store. rewrite putBack_assign by exact S.
    simpl. now rewrite setProperty_nil.
  - change (fragmentsOf (key :: k :: more))
      with (FString key :: fragmentsOf (k :: more)) in *.
    change (plainPath (FString key :: fragmentsOf (k :: more)))
      with (negb (inheritedName key) && plainPath (fragmentsOf (k :: more)))
      in PP.
    apply andb_true_iff in PP as [PK PR].
    assert (NP : isProto key = false).
    { unfold inheritedName in PK. now destruct (isProto key). }
    assert (NF : isInheritedFunction key = false).
    { unfold inheritedName in PK. rewrite NP in PK.
      now destruct (isInheritedFunction key). }
    assert (S : storesOwn (JObject []) (FString key) = true)
      by (simpl; now rewrite NP).
    destruct (setWalk_step_cases (JObject []) (FString key)
                (fragmentsOf (k :: more)) newValue eq_refl S)
      as [(x & M & ->) | (name & F & _ & _)].
    2: { simpl in F. unfold getProperty, inheritedMember in F. simpl in F.
         rewrite NP, NF in F. discriminate. }
    rewrite member_store in M by exact S.
    change (fragmentsOf (k :: more)) with (FString k :: fragmentsOf more) in M.
    cbv iota in M.
    assert (U : looseUndefined (member (JObject []) (FString key)) = true).
    { simpl. unfold getProperty, inheritedMember. simpl. now rewrite NP, NF. }
    rewrite U in M. injection M as <-.
    change (emptyFor (FString k)) with (JObject []).
    rewrite (IH k PR). simpl. now rewrite setProperty_nil.
Qed.

Lemma getFrom_nest (keys : list string) (v : JsonValue) :
  getFrom (nest keys v) (fragmentsOf keys) = v.
Proof.
  induction keys as [| k more IH]; [reflexivity |].
  change (fragmentsOf (k :: more)) with (FString k :: fragmentsOf more).
  rewrite getFrom_cons.
  replace (getReducer (nest (k :: more) v) (FString k))
    with (Doc (nest more v)); [exact IH |].
  simpl. unfold getReducer. simpl. unfold getProperty. simpl.
  now rewrite String.eqb_refl.
Qed.

(** ** The claims about the walks *)

Lemma fragmentsOf_not_nil (parsed : list string) :
  parsed <> [] -> fragmentsOf parsed <> [].
Proof. destruct parsed; [congruence | discriminate]. Qed.

(** C2, as amended: along a non-empty path none of whose steps is the key
    [__proto__], whenever a set succeeds, that is returns something other
    than [undefined], reading the updated document along the same path gives
    the value that was written; this holds for the walks over fragments and
    for [setValueFromPath] followed by [getValueFromPath] on the same path
    string. *)
Theorem set_then_get_roundtrip :
  (forall (outside : JsonValue -> list fragment -> JsonValue
                     -> JsValue * JsonValue)
          (fragments : list fragment) (root newValue : JsonValue),
      noProto fragments = true ->
      fragments <> [] ->
      fst (setValueFromFragments outside root fragments newValue)
      <> JUndefined ->
      getValueFromFragments
        (snd (setValueFromFragments outside root fragments newValue))
        fragments
      = newValue)
  /\ (forall (outside : JsonValue -> list fragment -> JsonValue
                        -> JsValue * JsonValue)
             (path : string) (root newValue : JsonValue) (result : JsValue)
             (updated : JsonValue),
         protoFree path = true ->
         parseJsonPath path <> Return [] ->
         setValueFromPath outside root path newValue
         = Return (result, updated) ->
         result <> JUndefined ->
         getValueFromPath updated path = Return (Doc newValue)).
Proof.
  assert (W : forall outside (fragments : list fragment)
                     (root newValue : JsonValue),
      noProto fragments = true ->
      fragments <> [] ->
      fst (setValueFromFragments outside root fragments newValue)
      <> JUndefined ->
      getValueFromFragments
        (snd (setValueFromFragments outside root fragments newValue))
        fragments
      = newValue).
  { intros outside fragments root newValue NP NE OK.
    destruct (setWalk_total fragments root newValue NP) as (r & d' & E).
    rewrite (setValueFromFragments_inside outside _ _ _ _ _ E) in *.
    cbn [fst snd] in *.
    exact (setWalk_get_same fragments root r (Doc d') newValue NP NE E OK). }
  split; [exact W |].
  intros outside path root newValue result updated PF NE S OK.
  unfold setValueFromPath, getValueFromPath, protoFree in *.
  destruct (parseJsonPath path) as [parsed | e]; [| discriminate].
  injection S as S. f_equal.
  assert (F : fragmentsOf parsed <> []).
  { apply fragmentsOf_not_nil. congruence. }
  specialize (W outside (fragmentsOf parsed) root newValue PF F).
  rewrite S in W. now apply W.
Qed.

Lemma set_then_get_roundtrip_witness :
  getValueFromFragments
    (snd (setValueFromFragments notConsulted (JObject [("a", JArray [])])
            [FString "a"; FNumber 1; FString "b"] (JString "v")))
    [FString "a"; FNumber 1; FString "b"]
  = JString "v"
  /\ getValueFromPath (JObject [("a", JObject [("b", JString "v")])]) "a.b"
     = Return (Doc (JString "v")).
Proof.
  split.
  - apply (proj1 set_then_get_roundtrip); [reflexivity | | ]; simpl;
      discriminate.
  - apply (proj2 set_then_get_roundtrip notConsulted "a.b" (JObject [])
             (JString "v") (JString "v")); vm_compute;
      [reflexivity | discriminate | reflexivity | discriminate].
Defined.

(** C2 as stated fails: a set of 5 at the path [__proto__] in the empty
    object calls the setter the object inherits, which ignores a number; the
    set returns [Object.prototype], which counts as success, the document is
    as it was, and reading the same path gives [Object.prototype], not 5. *)
Lemma set_at_proto_key_reads_prototype :
  (forall outside,
      setValueFromPath outside (JObject []) "__proto__" (JNumber 5)
      = Return (ObjectPrototype, JObject []))
  /\ parseJsonPath "__proto__" = Return ["__proto__"]
  /\ ObjectPrototype <> Doc JUndefined
  /\ getValueFromPath (JObject []) "__proto__" = Return ObjectPrototype
  /\ ObjectPrototype <> Doc (JNumber 5).
Proof. repeat split; discriminate. Qed.

(** C3, as amended: where the walk meets a boolean, a number or a string at
    a step it has to descend from, the set returns [undefined] and the
    document is as it was; and along a path no key of which names a member
    of [Object.prototype], whenever a set of a value other than [undefined]
    returns [undefined], the document is as it was.  So [{a: 1}] is
    unchanged by a set at [a.b].  (A [null] in that place does not block the
    walk.) *)
Theorem set_blocked_by_scalar_is_effect_free :
  (forall (outside : JsonValue -> list fragment -> JsonValue
                     -> JsValue * JsonValue)
          (root : JsonValue) (p : list fragment) (current : fragment)
          (rest : list fragment) (newValue : JsonValue),
      isScalar (getValueFromFragments root p) = true ->
      setValueFromFragments outside root (p ++ current :: rest) newValue
      = (Doc JUndefined, root))
  /\ (forall (outside : JsonValue -> list fragment -> JsonValue
                        -> JsValue * JsonValue)
             (root : JsonValue) (fragments : list fragment)
             (newValue : JsonValue),
         plainPath fragments = true ->
         newValue <> JUndefined ->
         fst (setValueFromFragments outside root fragments newValue)
         = JUndefined ->
         snd (setValueFromFragments outside root fragments newValue) = root)
  /\ (forall outside,
         setValueFromFragments outside (JObject [("a", JNumber 1)])
           [FString "a"; FString "b"] (JNumber 5)
         = (Doc JUndefined, JObject [("a", JNumber 1)])).
Proof.
  split; [| split; [| reflexivity]].
  - intros outside root p current rest newValue SC.
    apply setValueFromFragments_inside.
    unfold getValueFromFragments in SC.
    apply setWalk_rejected;
      destruct (getFrom root p) as [[] | |]; try discriminate; reflexivity.
  - intros outside root fragments newValue PP NV F.
    destruct (setWalk_total fragments root newValue (plainPath_noProto _ PP))
      as (r & d' & E).
    rewrite (setValueFromFragments_inside outside _ _ _ _ _ E) in *.
    cbn [fst snd] in *. subst r.
    pose proof (setWalk_failure_unchanged fragments root (Doc d') newValue
                  PP NV E) as U.
    now injection U.
Qed.

Lemma set_blocked_by_scalar_is_effect_free_witness :
  setValueFromFragments notConsulted
    (JObject [("a", JObject [("b", JString "s")])])
    ([FString "a"; FString "b"] ++ FString "c" :: [FNumber 0]) (JNumber 5)
  = (Doc JUndefined, JObject [("a", JObject [("b", JString "s")])])
  /\ snd (setValueFromFragments notConsulted (JArray [JBoolean true])
            [FString "a"] (JNumber 5))
     = JArray [JBoolean true].
Proof.
  split.
  - apply (proj1 set_blocked_by_scalar_is_effect_free). reflexivity.
  - apply (proj1 (proj2 set_blocked_by_scalar_is_effect_free));
      [reflexivity | discriminate | reflexivity].
Defined.

(** C3 as stated fails: [null] is present and is no container, yet the set
    through it succeeds and changes the document; and a set can fail after
    it has written: at [a.constructor.b] in the empty object it puts an empty
    object under [a], finds there the function every object inherits under
    [constructor], and returns [undefined]. *)
Lemma set_through_null_not_blocked :
  member (JObject [("a", JNull)]) (FString "a") = JNull
  /\ accepts JNull (FString "b") = false
  /\ (forall outside,
         setValueFromFragments outside (JObject [("a", JNull)])
           [FString "a"; FString "b"] (JNumber 5)
         = (Doc (JNumber 5), JObject [("a", JObject [("b", JNumber 5)])]))
  /\ (forall outside,
         setValueFromFragments outside (JObject [])
           [FString "a"; FString "constructor"; FString "b"] (JNumber 5)
         = (Doc JUndefined, JObject [("a", JObject [])])).
Proof. repeat split. Qed.



(** C6: reading fails with [undefined] when the kind of a step is not the
    kind of the container it is applied to: a string fragment on an array and
    a number fragment on an object, wherever on the path that happens; so
    reading [{a: [1, 2]}] at [a] then [b] gives [undefined]. *)
Theorem get_kind_mismatch_not_found :
  (forall (root : JsonValue) (p : list fragment) (key : string)
          (rest : list fragment),
      isArray (getValueFromFragments root p) = true ->
      getValueFromFragments root (p ++ FString key :: rest) = JUndefined)
  /\ (forall (root : JsonValue) (p : list fragment) (index : nat)
             (rest : list fragment) (properties : list (string * JsonValue)),
         getValueFromFragments root p = JObject properties ->
         getValueFromFragments root (p ++ FNumber index :: rest) = JUndefined)
  /\ getValueFromFragments (JObject [("a", JArray [JNumber 1; JNumber 2])])
       [FString "a"; FString "b"]
     = JUndefined.
Proof.
  split; [| split; [| reflexivity]].
  - intros root p key rest H.
    rewrite getValueFromFragments_app, getFrom_cons.
    destruct (getValueFromFragments root p) as [[] | |]; try discriminate.
    apply getFrom_undefined.
  - intros root p index rest properties H.
    rewrite getValueFromFragments_app, getFrom_cons, H.
    apply getFrom_undefined.
Qed.

Lemma get_kind_mismatch_not_found_witness :
  getValueFromFragments (JObject [("a", JArray [JObject []])])
    ([FString "a"] ++ FString "length" :: [])
  = JUndefined
  /\ getValueFromFragments (JArray [JObject [("k", JNumber 1)]])
       ([FNumber 0] ++ FNumber 0 :: [FString "k"])
     = JUndefined.
Proof.
  split.
  - apply (proj1 get_kind_mismatch_not_found). reflexivity.
  - apply (proj1 (proj2 get_kind_mismatch_not_found)
             (JArray [JObject [("k", JNumber 1)]]) [FNumber 0] 0
             [FString "k"] [("k", JNumber 1)]).
    reflexivity.
Defined.


(** ** The parser on paths that follow the grammar *)

Lemma append_assoc (s t u : string) : (s ++ t) ++ u = s ++ (t ++ u).
Proof. induction s as [| c s IH]; simpl; [reflexivity | now rewrite IH]. Qed.

Lemma append_empty_r (s : string) : s ++ "" = s.
Proof. induction s as [| c s IH]; simpl; [reflexivity | now rewrite IH]. Qed.

Lemma allChars_app (p : ascii -> bool) (s t : string) :
  allChars p (s ++ t) = allChars p s && allChars p t.
Proof.
  induction s as [| c s IH]; simpl; [reflexivity |].
  now rewrite IH, andb_assoc.
Qed.

Lemma allChars_weaken (p q : ascii -> bool) (s : string) :
  (forall c, p c = true -> q c = true) ->
  allChars p s = true -> allChars q s = true.
Proof.
  intros I. induction s as [| c s IH]; simpl; [reflexivity |].
  intros H. apply andb_true_iff in H as [H1 H2].
  now rewrite (I c H1), IH.
Qed.

Lemma plainChar_parts (c : ascii) :
  plainChar c = true ->
  notOpen c = true /\ notClose c = true /\ notDot c = true /\ onLine c = true.
Proof.
  unfold plainChar, nameChar, notOpen, notClose, notDot, onLine. intros H.
  repeat (apply andb_true_iff in H as [H ?]). auto.
Qed.

Lemma nameText_parts (s : string) :
  nameText s = true ->
  truthy s = true /\ allChars notOpen s = true /\ allChars notDot s = true.
Proof.
  unfold nameText. intros H. apply andb_true_iff in H as [T H].
  repeat split; [exact T | ..];
    (eapply allChars_weaken; [| exact H]); intros c P;
    unfold nameChar, notOpen, notDot in *;
    repeat (apply andb_true_iff in P as [P ?]); auto.
Qed.

Lemma plainText_parts (s : string) :
  plainText s = true ->
  truthy s = true /\ allChars notOpen s = true /\ allChars notClose s = true
  /\ allChars notDot s = true /\ allChars onLine s = true.
Proof.
  unfold plainText. intros H. apply andb_true_iff in H as [T H].
  repeat split; [exact T | ..];
    (eapply allChars_weaken; [| exact H]); intros c P;
    now apply plainChar_parts in P.
Qed.

(** *** Splitting at the dots *)

Lemma splitDots_no_dot (s : string) :
  allChars notDot s = true -> splitDots s = [s].
Proof.
  induction s as [| c s IH]; simpl; [reflexivity |].
  intros H. apply andb_true_iff in H as [H1 H2].
  unfold notDot in H1. apply negb_true_iff in H1.
  now rewrite H1, (IH H2).
Qed.

Lemma splitDots_app_dot (s t : string) :
  allChars notDot s = true ->
  splitDots (s ++ String "." t) = s :: splitDots t.
Proof.
  induction s as [| c s IH]; simpl; [reflexivity |].
  intros H. apply andb_true_iff in H as [H1 H2].
  unfold notDot in H1. apply negb_true_iff in H1.
  now rewrite H1, (IH H2).
Qed.

Lemma brackets_no_dot (groups : list string) :
  forallb plainText groups = true -> allChars notDot (brackets groups) = true.
Proof.
  induction groups as [| g more IH]; simpl; [reflexivity |].
  intros H. apply andb_true_iff in H as [H1 H2].
  apply plainText_parts in H1 as (_ & _ & _ & D & _).
  rewrite allChars_app, D. simpl. now apply IH.
Qed.

Lemma renderSegment_no_dot (sg : segment) :
  wellFormedSegment sg = true -> allChars notDot (renderSegment sg) = true.
Proof.
  destruct sg as [name groups]. unfold wellFormedSegment, renderSegment.
  simpl. intros H. apply andb_true_iff in H as [H1 H2].
  apply nameText_parts in H1 as (_ & _ & D).
  now rewrite allChars_app, D, brackets_no_dot.
Qed.

Lemma splitDots_renderPath (segments : list segment) :
  segments <> [] ->
  forallb wellFormedSegment segments = true ->
  splitDots (renderPath segments) = map renderSegment segments.
Proof.
  induction segments as [| sg more IH]; [congruence |].
  intros _ H. simpl in H. apply andb_true_iff in H as [H1 H2].
  apply renderSegment_no_dot in H1.
  destruct more as [| sg' more'].
  - simpl. now apply splitDots_no_dot.
  - change (renderPath (sg :: sg' :: more'))
      with (renderSegment sg ++ String "." (renderPath (sg' :: more'))).
    rewrite splitDots_app_dot by exact H1.
    rewrite IH; [reflexivity | discriminate | exact H2].
Qed.

(** *** Matching one fragment *)

Lemma brackets_join (g : string) (more : list string) :
  brackets (g :: more) = String "[" (joinCloseOpen (g :: more) ++ "]").
Proof.
  revert g. induction more as [| g' more IH]; intros g.
  - reflexivity.
  - change (brackets (g :: g' :: more))
      with (String "[" (g ++ String "]" (brackets (g' :: more)))).
    rewrite IH.
    change (joinCloseOpen (g :: g' :: more))
      with (g ++ String "]" (String "[" (joinCloseOpen (g' :: more)))).
    now rewrite append_assoc.
Qed.

Lemma joinCloseOpen_onLine (groups : list string) :
  forallb plainText groups = true ->
  allChars onLine (joinCloseOpen groups) = true.
Proof.
  induction groups as [| g more IH]; [reflexivity |].
  intros H. simpl in H. apply andb_true_iff in H as [H1 H2].
  apply plainText_parts in H1 as (_ & _ & _ & _ & L).
  destruct more as [| g' more]; [exact L |].
  change (joinCloseOpen (g :: g' :: more))
    with (g ++ String "]" (String "[" (joinCloseOpen (g' :: more)))).
  rewrite allChars_app, L. simpl. now apply IH.
Qed.

Lemma throughLastClose_closed (x : string) :
  allChars onLine x = true ->
  throughLastClose (x ++ "]") = Some (x ++ "]").
Proof.
  induction x as [| c x IH]; simpl; [reflexivity |].
  intros H. apply andb_true_iff in H as [H1 H2].
  unfold onLine in H1. apply negb_true_iff in H1.
  now rewrite H1, (IH H2).
Qed.

Lemma dropLast_closed (x : string) : dropLast (x ++ "]") = x.
Proof.
  induction x as [| c x IH]; [reflexivity |].
  simpl. rewrite IH. now destruct x.
Qed.

Lemma bracketGroups_brackets (groups : list string) :
  forallb plainText groups = true ->
  bracketGroups (brackets groups) = brackets groups.
Proof.
  destruct groups as [| g more]; [reflexivity |].
  intros H. rewrite brackets_join. unfold bracketGroups.
  replace (isOpen "[") with true by reflexivity.
  now rewrite throughLastClose_closed by now apply joinCloseOpen_onLine.
Qed.

Lemma splitCloseOpen_no_close (g : string) :
  allChars notClose g = true -> splitCloseOpen g = [g].
Proof.
  induction g as [| c g IH]; simpl; [reflexivity |].
  intros H. apply andb_true_iff in H as [H1 H2].
  unfold notClose in H1. apply negb_true_iff in H1.
  rewrite H1, (IH H2). now destruct g.
Qed.

Lemma splitCloseOpen_app (g t : string) :
  allChars notClose g = true ->
  splitCloseOpen (g ++ String "]" (String "[" t)) = g :: splitCloseOpen t.
Proof.
  induction g as [| c g IH]; [reflexivity |].
  intros H. simpl in H. apply andb_true_iff in H as [H1 H2].
  unfold notClose in H1. apply negb_true_iff in H1.
  change (splitCloseOpen (String c g ++ String "]" (String "[" t)))
    with (let rest := g ++ String "]" (String "[" t) in
          let keep :=
            match splitCloseOpen rest with
            | piece :: pieces => String c piece :: pieces
            | [] => [String c ""]
            end in
          match rest with
          | String c' rest' =>
              if isClose c && isOpen c' then "" :: splitCloseOpen rest'
              else keep
          | EmptyString => keep
          end).
  cbv zeta. rewrite H1, (IH H2). simpl.
  now destruct (g ++ String "]" (String "[" t)).
Qed.

Lemma splitCloseOpen_join (groups : list string) :
  groups <> [] ->
  forallb plainText groups = true ->
  splitCloseOpen (joinCloseOpen groups) = groups.
Proof.
  induction groups as [| g more IH]; [congruence |].
  intros _ H. simpl in H. apply andb_true_iff in H as [H1 H2].
  apply plainText_parts in H1 as (_ & _ & C & _ & _).
  destruct more as [| g' more].
  - now apply splitCloseOpen_no_close.
  - change (joinCloseOpen (g :: g' :: more))
      with (g ++ String "]" (String "[" (joinCloseOpen (g' :: more)))).
    rewrite splitCloseOpen_app by exact C.
    rewrite IH; [reflexivity | discriminate | exact H2].
Qed.

Lemma spanName_app (name after : string) :
  allChars notOpen name = true ->
  after = "" \/ (exists t, after = String "[" t) ->
  spanName (name ++ after) = (name, after).
Proof.
  intros H A. induction name as [| c name IH]; simpl.
  - destruct A as [-> | [t ->]]; reflexivity.
  - simpl in H. apply andb_true_iff in H as [H1 H2].
    unfold notOpen in H1. apply negb_true_iff in H1.
    now rewrite H1, (IH H2).
Qed.

Lemma brackets_shape (groups : list string) :
  brackets groups = "" \/ (exists t, brackets groups = String "[" t).
Proof. destruct groups; [left | right; eexists]; reflexivity. Qed.

Lemma matchFragment_started (c : ascii) (rest : string) :
  isOpen c = false ->
  matchFragment (String c rest)
  = let (name, after) := spanName (String c rest) in
    Some (name, bracketGroups after).
Proof.
  intros H. unfold matchFragment.
  replace (skipOpens (String c rest)) with (String c rest)
    by (simpl; now rewrite H).
  reflexivity.
Qed.

Lemma matchFragment_segment (sg : segment) :
  wellFormedSegment sg = true ->
  matchFragment (renderSegment sg) = Some (fst sg, brackets (snd sg)).
Proof.
  destruct sg as [name groups]. unfold wellFormedSegment, renderSegment.
  simpl. intros H. apply andb_true_iff in H as [H1 H2].
  apply nameText_parts in H1 as (T & O & _).
  destruct name as [| c name]; [discriminate |].
  pose proof O as O'. simpl in O'. apply andb_true_iff in O' as [O1 _].
  unfold notOpen in O1. apply negb_true_iff in O1.
  change (String c name ++ brackets groups)
    with (String c (name ++ brackets groups)).
  rewrite matchFragment_started by exact O1.
  change (String c (name ++ brackets groups))
    with (String c name ++ brackets groups).
  rewrite (spanName_app (String c name) (brackets groups) O
             (brackets_shape groups)).
  now rewrite bracketGroups_brackets.
Qed.

Lemma pushed_segment (name : string) (groups : list string) :
  forallb plainText groups = true ->
  pushed name (brackets groups) = name :: groups.
Proof.
  intros H. unfold pushed. destruct groups as [| g more]; [reflexivity |].
  rewrite brackets_join. unfold slice_1_m1.
  rewrite dropLast_closed, splitCloseOpen_join; [reflexivity | discriminate |].
  exact H.
Qed.

Lemma parseFragments_segments (segments : list segment) :
  forallb wellFormedSegment segments = true ->
  parseFragments (map renderSegment segments)
  = Return (flat_map segmentSteps segments).
Proof.
  induction segments as [| sg more IH]; [reflexivity |].
  intros H. simpl in H. apply andb_true_iff in H as [H1 H2].
  cbn [map parseFragments].
  rewrite (matchFragment_segment sg H1), (IH H2).
  unfold wellFormedSegment in H1. apply andb_true_iff in H1 as [_ G].
  now rewrite pushed_segment.
Qed.

Lemma filter_truthy_steps (segments : list segment) :
  forallb wellFormedSegment segments = true ->
  filter truthy (flat_map segmentSteps segments)
  = flat_map segmentSteps segments.
Proof.
  induction segments as [| [name groups] more IH]; [reflexivity |].
  intros H. simpl in H. apply andb_true_iff in H as [H1 H2].
  unfold wellFormedSegment in H1. simpl in H1.
  apply andb_true_iff in H1 as [N G].
  simpl. rewrite filter_app, (IH H2).
  apply nameText_parts in N as (-> & _).
  do 2 f_equal. clear -G.
  induction groups as [| g gs IHg]; [reflexivity |].
  simpl in *. apply andb_true_iff in G as [G1 G2].
  apply plainText_parts in G1 as (-> & _). now rewrite IHg.
Qed.

(** ** The claims about the parser *)

(** C1, as amended: on a path made of one or more dot-separated segments,
    each a name followed by bracketed groups, where names and group contents
    are non-empty and hold no bracket or dot, the contents no line break,
    and the content of no group holds a decimal digit, [parseJsonPath]
    raises no error: it gives for each segment its name and then one step
    for each group, holding that group's content as text, in order.  So the
    steps of [a[x]] are a and x. *)
Theorem parseJsonPath_segments :
  (forall segments : list segment,
      segments <> [] ->
      forallb wellFormedSegment segments = true ->
      forallb textGroups segments = true ->
      parseJsonPath (renderPath segments)
      = Return (flat_map segmentSteps segments))
  /\ parseJsonPath "a[x]" = Return ["a"; "x"].
Proof.
  split; [| reflexivity].
  intros segments NE WF _. unfold parseJsonPath.
  rewrite splitDots_renderPath, parseFragments_segments by assumption.
  now rewrite filter_truthy_steps.
Qed.

Lemma parseJsonPath_segments_witness :
  parseJsonPath (renderPath [("projects", []); ("app", ["key"; "other"])])
  = Return (flat_map segmentSteps
              [("projects", []); ("app", ["key"; "other"])]).
Proof.
  apply (proj1 parseJsonPath_segments);
    [discriminate | reflexivity | reflexivity].
Defined.

(** C1 as stated fails: a bracket whose content is not a number raises no
    error; the content becomes a step. *)
Lemma parseJsonPath_keeps_bracket_text :
  parseJsonPath "a[x]" = Return ["a"; "x"]
  /\ (forall e : exception, parseJsonPath "a[x]" <> Throw e).
Proof. split; [reflexivity | discriminate]. Qed.

Lemma Resolves_scalar_inv (root : JsonValue) (current : fragment)
  (rest : list fragment) (v : JsonValue) :
  accepts root current = false -> ~ Resolves root (current :: rest) v.
Proof. intros A R. inversion R; subst; discriminate. Qed.

(** C5, as amended: [parseJsonPath] of the empty string throws the
    invalid-path error; reading along no fragments returns the root; reading
    is total over fragments and, along a path no key of which names a member
    of [Object.prototype], gives [undefined] for every path that leads to no
    value; and [getValueFromPath] throws only what [parseJsonPath]
    throws. *)
Theorem get_total_parse_empty_throws :
  parseJsonPath "" = Throw (Error "Invalid JSON path.")
  /\ (forall root : JsonValue, getValueFromFragments root [] = root)
  /\ (forall (root : JsonValue) (fragments : list fragment),
         plainPath fragments = true ->
         (forall v : JsonValue, Resolves root fragments v -> v = JUndefined) ->
         getValueFromFragments root fragments = JUndefined)
  /\ (forall (root : JsonValue) (path : string) (e : exception),
         getValueFromPath root path = Throw e -> parseJsonPath path = Throw e).
Proof.
  split; [reflexivity | split; [reflexivity | split]].
  - intros root fragments PP H. unfold getValueFromFragments.
    destruct (getFrom root fragments) as [[] | |] eqn:E; try reflexivity;
      (destruct (getFrom_resolves fragments root _ PP E) as (v & EV & R);
       [discriminate |]; apply H in R; subst v; discriminate).
  - intros root path e. unfold getValueFromPath.
    destruct (parseJsonPath path); [discriminate |].
    intros H. injection H as ->. reflexivity.
Qed.

Lemma get_total_parse_empty_throws_witness :
  getValueFromFragments (JString "s") [FString "length"] = JUndefined
  /\ parseJsonPath "a..b" = Throw (Error "Invalid JSON path.").
Proof.
  destruct get_total_parse_empty_throws as (_ & _ & N & T). split.
  - apply N; [reflexivity |]. intros v R. exfalso. revert R.
    now apply Resolves_scalar_inv.
  - apply (T (JObject []) "a..b"). reflexivity.
Defined.

(** C5 as stated fails: the empty string does not parse to the empty
    sequence of steps, and reading at the empty path string throws; and a
    path that leads to no value of the document can read something other
    than [undefined]: at [constructor] an object that has no such key gives
    the function it inherits. *)
Lemma parseJsonPath_empty_string_throws :
  parseJsonPath "" <> Return []
  /\ getValueFromPath (JObject []) "" = Throw (Error "Invalid JSON path.")
  /\ getValueFromPath (JObject [("a", JString "x")]) "constructor"
     = Return (BuiltinFunction "constructor")
  /\ (forall v : JsonValue,
         ~ Resolves (JObject [("a", JString "x")]) [FString "constructor"] v).
Proof.
  repeat split; try discriminate.
  intros v R. inversion R; subst. discriminate.
Qed.
(** ** The claims about the normalizer *)

Lemma mapGet_In (entries : list (string * string)) (key v : string) :
  mapGet entries key = Some v -> In v (map snd entries).
Proof.
  induction entries as [| [k w] rest IH]; simpl; [discriminate |].
  destruct (String.eqb k key); intros H; [left; congruence | right; auto].
Qed.

Lemma validCliPaths_kinds (path kind : string) :
  validCliPaths path = Some kind -> kind = "boolean" \/ kind = "string".
Proof.
  intros H. apply mapGet_In in H. simpl in H.
  destruct H as [H | [H | [H | [H | []]]]]; subst; auto.
Qed.

(** C7: for a path the registry gives the kind boolean, [normalizeValue]
    trims the text of the raw value and compares it, letter case included,
    with true and false: it returns the boolean named, and throws the
    invalid-value-type error for any other raw value.  So true at
    [cli.warnings.versionMismatch] gives the boolean true, and maybe
    throws. *)
Theorem normalizeValue_boolean :
  (forall (numberToString : float -> string) (stringToNumber : string -> float)
          (parseJson : string -> outcome JsonValue)
          (value : ConfigCommandSchemaValue) (path : string),
      validCliPaths path = Some "boolean" ->
      normalizeValue numberToString stringToNumber parseJson value path
      = if String.eqb (trim (stringOf numberToString value)) "true"
        then Return (JBoolean true)
        else if String.eqb (trim (stringOf numberToString value)) "false"
        then Return (JBoolean false)
        else Throw (Error "Invalid value type; expected a boolean."))
  /\ validCliPaths "cli.warnings.versionMismatch" = Some "boolean"
  /\ (forall (numberToString : float -> string)
             (stringToNumber : string -> float)
             (parseJson : string -> outcome JsonValue),
         normalizeValue numberToString stringToNumber parseJson
           (VString "true") "cli.warnings.versionMismatch"
         = Return (JBoolean true)
         /\ normalizeValue numberToString stringToNumber parseJson
              (VString "maybe") "cli.warnings.versionMismatch"
            = Throw (Error "Invalid value type; expected a boolean.")
         /\ normalizeValue numberToString stringToNumber parseJson
              (VString "True") "cli.warnings.versionMismatch"
            = Throw (Error "Invalid value type; expected a boolean.")).
Proof.
  split; [| split; [reflexivity | intros; repeat split]].
  intros numberToString stringToNumber parseJson value path H.
  unfold normalizeValue. rewrite H. reflexivity.
Qed.

Lemma normalizeValue_boolean_witness :
  normalizeValue (fun _ => "") decimalToNumber parseJsonWords
    (VString "  false ") "cli.warnings.typescriptMismatch"
  = Return (JBoolean false).
Proof.
  apply (proj1 normalizeValue_boolean (fun _ => "") decimalToNumber
           parseJsonWords (VString "  false ")
           "cli.warnings.typescriptMismatch").
  reflexivity.
Defined.

(** X16 (the number case of the [switch]): when the number parsed from the
    raw value is not finite it is returned, no error is thrown; the
    invalid-value-type error is thrown when the number is finite.  No path of
    the registry has the kind number, so [normalizeValue] never enters this
    case. *)
Theorem normalizeCliOption_number_inverted :
  (forall (numberToString : float -> string) (stringToNumber : string -> float)
          (value : ConfigCommandSchemaValue),
      is_finite (Number stringToNumber value) = false ->
      normalizeCliOption numberToString stringToNumber "number" value
      = Return (JNumber (Number stringToNumber value)))
  /\ (forall (numberToString : float -> string)
             (stringToNumber : string -> float)
             (value : ConfigCommandSchemaValue),
         is_finite (Number stringToNumber value) = true ->
         normalizeCliOption numberToString stringToNumber "number" value
         = Throw (Error "Invalid value type; expected a number."))
  /\ normalizeCliOption (fun _ => "") decimalToNumber "number" (VString "abc")
     = Return (JNumber nan)
  /\ (forall path : string, validCliPaths path <> Some "number").
Proof.
  split; [| split; [| split; [reflexivity |]]].
  - intros numberToString stringToNumber value H.
    unfold normalizeCliOption. simpl. now rewrite H.
  - intros numberToString stringToNumber value H.
    unfold normalizeCliOption. simpl. now rewrite H.
  - intros path H. apply validCliPaths_kinds in H as [H | H]; discriminate.
Qed.

Lemma normalizeCliOption_number_inverted_witness :
  normalizeCliOption (fun _ => "") decimalToNumber "number" (VNumber infinity)
  = Return (JNumber (Number decimalToNumber (VNumber infinity)))
  /\ normalizeCliOption (fun _ => "") decimalToNumber "number" (VString "42")
     = Throw (Error "Invalid value type; expected a number.").
Proof.
  split.
  - apply (proj1 normalizeCliOption_number_inverted). reflexivity.
  - apply (proj1 (proj2 normalizeCliOption_number_inverted)). reflexivity.
Defined.

(** C9: for a path that is not in the registry and a raw value that is a
    string, [normalizeValue] returns what the lenient parse returns; when the
    parse fails on an invalid character and the text does not start with an
    opening brace the text itself is returned as a string; every other
    failure is thrown on.  With a parser that reads numbers and rejects other
    text on its first character, 42 at [schematics.foo] gives the number 42
    and not-json-but-plain gives that text. *)
Theorem normalizeValue_free_form :
  (forall (numberToString : float -> string) (stringToNumber : string -> float)
          (parseJson : string -> outcome JsonValue) (s path : string),
      validCliPaths path = None ->
      normalizeValue numberToString stringToNumber parseJson (VString s) path
      = match parseJson s with
        | Return parsed => Return parsed
        | Throw e =>
            if isInvalidJsonCharacter e && negb (startsWithBrace s)
            then Return (JString s)
            else Throw e
        end)
  /\ validCliPaths "schematics.foo" = None
  /\ (forall (numberToString : float -> string)
             (stringToNumber : string -> float),
         normalizeValue numberToString stringToNumber parseJsonWords
           (VString "42") "schematics.foo"
         = Return (JNumber 42)
         /\ normalizeValue numberToString stringToNumber parseJsonWords
              (VString "not-json-but-plain") "schematics.foo"
            = Return (JString "not-json-but-plain")).
Proof.
  split; [| split; [reflexivity | intros; split; reflexivity]].
  intros numberToString stringToNumber parseJson s path H.
  unfold normalizeValue. now rewrite H.
Qed.

Lemma normalizeValue_free_form_witness :
  normalizeValue (fun _ => "") decimalToNumber
    (fun _ => Throw JsonException) (VString "{a") "projects.app"
  = Throw JsonException
  /\ normalizeValue (fun _ => "") decimalToNumber
       (fun _ => Throw InvalidJsonCharacterException) (VString "{a")
       "projects.app"
     = Throw InvalidJsonCharacterException.
Proof.
  split.
  - apply (proj1 normalizeValue_free_form (fun _ => "") decimalToNumber
             (fun _ => Throw JsonException) "{a" "projects.app").
    reflexivity.
  - apply (proj1 normalizeValue_free_form (fun _ => "") decimalToNumber
             (fun _ => Throw InvalidJsonCharacterException) "{a"
             "projects.app").
    reflexivity.
Defined.

(** ** Further properties of the walks *)

(** X3 (the set side of a kind mismatch): a string fragment applied to an
    array, or a number fragment applied to an object, anywhere on the path,
    makes the set return [undefined] and leaves the document as it was. *)
Theorem set_kind_mismatch_unchanged :
  (forall (outside : JsonValue -> list fragment -> JsonValue
                     -> JsValue * JsonValue)
          (root : JsonValue) (p : list fragment) (key : string)
          (rest : list fragment) (newValue : JsonValue),
      isArray (getValueFromFragments root p) = true ->
      setValueFromFragments outside root (p ++ FString key :: rest) newValue
      = (Doc JUndefined, root))
  /\ (forall (outside : JsonValue -> list fragment -> JsonValue
                        -> JsValue * JsonValue)
             (root : JsonValue) (p : list fragment) (index : nat)
             (rest : list fragment) (newValue : JsonValue)
             (properties : list (string * JsonValue)),
         getValueFromFragments root p = JObject properties ->
         setValueFromFragments outside root (p ++ FNumber index :: rest)
           newValue
         = (Doc JUndefined, root)).
Proof.
  split.
  - intros outside root p key rest newValue H.
    apply setValueFromFragments_inside.
    unfold getValueFromFragments in H.
    apply setWalk_rejected;
      destruct (getFrom root p) as [[] | |]; try discriminate; reflexivity.
  - intros outside root p index rest newValue properties H.
    apply setValueFromFragments_inside.
    unfold getValueFromFragments in H.
    apply setWalk_rejected; now rewrite H.
Qed.

Lemma set_kind_mismatch_unchanged_witness :
  setValueFromFragments notConsulted (JObject [("a", JArray [JNumber 1])])
    ([FString "a"] ++ FString "0" :: []) (JNumber 5)
  = (Doc JUndefined, JObject [("a", JArray [JNumber 1])])
  /\ setValueFromFragments notConsulted (JArray [JObject []])
       ([FNumber 0] ++ FNumber 1 :: [FString "k"]) JNull
     = (Doc JUndefined, JArray [JObject []]).
Proof.
  split.
  - apply (proj1 set_kind_mismatch_unchanged). reflexivity.
  - apply (proj2 set_kind_mismatch_unchanged notConsulted
             (JArray [JObject []]) [FNumber 0] 1 [FString "k"] JNull []).
    reflexivity.
Defined.

(** *** A set leaves the rest of the document alone *)

(** X4 (a set does not touch what lies off its path): after a set along a
    path none of whose steps is the key [__proto__], reading along any path
    that leaves it at some fragment, by another key that names no member of
    [Object.prototype] or by another index, gives what it gave before,
    whether the set succeeded or not. *)
Theorem set_leaves_other_paths :
  forall (outside : JsonValue -> list fragment -> JsonValue
                    -> JsValue * JsonValue)
         (root : JsonValue) (p : list fragment) (current other : fragment)
         (rest q : list fragment) (newValue : JsonValue),
    noProto (p ++ current :: rest) = true ->
    plainFragment other = true ->
    current <> other ->
    getValueFromFragments
      (snd (setValueFromFragments outside root (p ++ current :: rest)
              newValue))
      (p ++ other :: q)
    = getValueFromFragments root (p ++ other :: q).
Proof.
  intros outside root p current other rest q newValue NP PO NE.
  destruct (setWalk_total _ root newValue NP) as (r & d' & E).
  rewrite (setValueFromFragments_inside outside _ _ _ _ _ E). cbn [snd].
  exact (setWalk_frame p root current other rest q r (Doc d') newValue
           NP PO NE E).
Qed.

Lemma set_leaves_other_paths_witness :
  getValueFromFragments
    (snd (setValueFromFragments notConsulted
            (JObject [("a", JObject [("x", JNull); ("y", JNumber 2)])])
            ([FString "a"] ++ FString "x" :: [FString "new"]) (JNumber 5)))
    ([FString "a"] ++ FString "y" :: [])
  = getValueFromFragments
      (JObject [("a", JObject [("x", JNull); ("y", JNumber 2)])])
      ([FString "a"] ++ FString "y" :: []).
Proof.
  apply (set_leaves_other_paths notConsulted
           (JObject [("a", JObject [("x", JNull); ("y", JNumber 2)])])
           [FString "a"] (FString "x") (FString "y"));
    [reflexivity | reflexivity | discriminate].
Defined.

(** *** Two sets along the same path *)

(** X5 (the last write wins): along a path none of whose steps is the key
    [__proto__], a set of [w] after a set of [v] returns what the set of [w]
    alone returns and leaves the document the set of [w] alone leaves; so
    setting the same value twice is setting it once. *)
Theorem set_twice_is_last_set :
  forall (outside : JsonValue -> list fragment -> JsonValue
                    -> JsValue * JsonValue)
         (root : JsonValue) (fragments : list fragment) (v w : JsonValue),
    noProto fragments = true ->
    setValueFromFragments outside
      (snd (setValueFromFragments outside root fragments v)) fragments w
    = setValueFromFragments outside root fragments w.
Proof.
  intros outside root fragments v w NP.
  destruct (setWalk_total fragments root v NP) as (r & d1 & E).
  rewrite (setValueFromFragments_inside outside _ _ _ _ _ E). cbn [snd].
  destruct (setWalk_total fragments root w NP) as (r' & d2 & E').
  rewrite (setValueFromFragments_inside outside _ _ _ _ _ E').
  apply setValueFromFragments_inside.
  now rewrite (setWalk_twice fragments root d1 r v w NP E).
Qed.

Lemma set_twice_is_last_set_witness :
  setValueFromFragments notConsulted
    (snd (setValueFromFragments notConsulted (JObject [("a", JNull)])
            [FString "a"; FNumber 1] (JString "v")))
    [FString "a"; FNumber 1] (JNumber 5)
  = setValueFromFragments notConsulted (JObject [("a", JNull)])
      [FString "a"; FNumber 1] (JNumber 5).
Proof.
  apply (set_twice_is_last_set notConsulted (JObject [("a", JNull)])
           [FString "a"; FNumber 1] (JString "v") (JNumber 5)).
  reflexivity.
Defined.

(** *** What a set returns *)

(** X6 (what a set returns): along a non-empty path none of whose steps is
    the key [__proto__] a set returns the new value or [undefined], nothing
    else; and it returns the new value wherever reading the same path finds
    a value that is not [null]: what can be read can be overwritten. *)
Theorem set_returns_new_value_or_undefined :
  (forall (outside : JsonValue -> list fragment -> JsonValue
                     -> JsValue * JsonValue)
          (root : JsonValue) (fragments : list fragment)
          (newValue : JsonValue),
      noProto fragments = true ->
      fragments <> [] ->
      fst (setValueFromFragments outside root fragments newValue) = newValue
      \/ fst (setValueFromFragments outside root fragments newValue)
         = JUndefined)
  /\ (forall (outside : JsonValue -> list fragment -> JsonValue
                        -> JsValue * JsonValue)
             (root : JsonValue) (fragments : list fragment)
             (newValue : JsonValue),
         noProto fragments = true ->
         fragments <> [] ->
         looseUndefined (getValueFromFragments root fragments) = false ->
         fst (setValueFromFragments outside root fragments newValue)
         = newValue).
Proof.
  split.
  - intros outside root fragments newValue NP NE.
    destruct (setWalk_total fragments root newValue NP) as (r & d' & E).
    rewrite (setValueFromFragments_inside outside _ _ _ _ _ E). cbn [fst].
    exact (setWalk_result fragments root r (Doc d') newValue NP NE E).
  - intros outside root fragments newValue NP NE G.
    destruct (setWalk_overwrites fragments root newValue NP NE G)
      as (d' & E).
    now rewrite (setValueFromFragments_inside outside _ _ _ _ _ E).
Qed.

Lemma set_returns_new_value_or_undefined_witness :
  (fst (setValueFromFragments notConsulted (JArray []) [FString "a"]
          (JNumber 5))
   = JNumber 5
   \/ fst (setValueFromFragments notConsulted (JArray []) [FString "a"]
             (JNumber 5))
      = JUndefined)
  /\ fst (setValueFromFragments notConsulted
            (JObject [("a", JArray [JNumber 1; JString "old"])])
            [FString "a"; FNumber 1] (JNumber 5))
     = JNumber 5.
Proof.
  split.
  - apply (proj1 set_returns_new_value_or_undefined);
      [reflexivity | discriminate].
  - apply (proj2 set_returns_new_value_or_undefined);
      [reflexivity | discriminate | reflexivity].
Defined.
(** ** Further properties of the parser *)

Lemma splitDots_not_nil (s : string) : splitDots s <> [].
Proof.
  induction s as [| c s IH]; simpl; [discriminate |].
  destruct (isDot c); [discriminate |].
  destruct (splitDots s); discriminate.
Qed.

Lemma splitDots_app (s t : string) :
  splitDots (s ++ String "." t) = (splitDots s ++ splitDots t)%list.
Proof.
  induction s as [| c s IH]; [reflexivity |].
  simpl. rewrite IH. destruct (isDot c); [reflexivity |].
  pose proof (splitDots_not_nil s) as NE.
  destruct (splitDots s); [congruence | reflexivity].
Qed.

Lemma skipOpens_empty (s : string) :
  skipOpens s = "" <-> allChars isOpen s = true.
Proof.
  induction s as [| c s IH]; simpl; [tauto |].
  destruct (isOpen c); simpl; [exact IH |].
  split; discriminate.
Qed.

Lemma skipOpens_started (s : string) (c : ascii) (rest : string) :
  skipOpens s = String c rest -> isOpen c = false.
Proof.
  induction s as [| d s IH]; simpl; [discriminate |].
  destruct (isOpen d) eqn:E; [exact IH |].
  intros H. injection H as -> _. exact E.
Qed.

Lemma matchFragment_None (fragment : string) :
  matchFragment fragment = None <-> allChars isOpen fragment = true.
Proof.
  rewrite <- skipOpens_empty. unfold matchFragment.
  destruct (skipOpens fragment) as [| c rest]; [tauto |].
  destruct (spanName (String c rest)). split; discriminate.
Qed.

Lemma matchFragment_name (fragment match1 match2 : string) :
  matchFragment fragment = Some (match1, match2) -> truthy match1 = true.
Proof.
  unfold matchFragment.
  destruct (skipOpens fragment) as [| c rest] eqn:E; [discriminate |].
  apply skipOpens_started in E. simpl. rewrite E.
  destruct (spanName rest). intros H. now injection H as <- _.
Qed.

Lemma parseFragments_throws (fragments : list string) :
  parseFragments fragments
  = (if existsb (allChars isOpen) fragments
     then Throw (Error "Invalid JSON path.")
     else parseFragments fragments)
  /\ (existsb (allChars isOpen) fragments = false ->
      exists result, parseFragments fragments = Return result).
Proof.
  induction fragments as [| f more [IH1 IH2]]; simpl.
  - split; [reflexivity | eauto].
  - destruct (allChars isOpen f) eqn:E; simpl.
    + apply matchFragment_None in E. rewrite E. split; [reflexivity |].
      discriminate.
    + destruct (matchFragment f) as [[m1 m2] |] eqn:M.
      2: { apply matchFragment_None in M. congruence. }
      destruct (existsb (allChars isOpen) more).
      * rewrite IH1. split; [reflexivity | discriminate].
      * split; [reflexivity |]. intros _.
        destruct (IH2 eq_refl) as [result ->]. eauto.
Qed.

(** X2 (when the parser throws): [parseJsonPath] throws the invalid-path
    error exactly when one of the pieces between the dots is empty or made of
    opening brackets only, and returns otherwise; so a path that starts with
    a dot, ends with a dot or has two dots in a row is always rejected. *)
Theorem parseJsonPath_throws_on_nameless_piece :
  (forall path : string,
      existsb (allChars isOpen) (splitDots path) = true ->
      parseJsonPath path = Throw (Error "Invalid JSON path."))
  /\ (forall path : string,
         existsb (allChars isOpen) (splitDots path) = false ->
         exists steps, parseJsonPath path = Return steps)
  /\ (forall s : string,
         parseJsonPath (String "." s) = Throw (Error "Invalid JSON path."))
  /\ (forall s : string,
         parseJsonPath (s ++ ".") = Throw (Error "Invalid JSON path."))
  /\ (forall s t : string,
         parseJsonPath (s ++ ".." ++ t) = Throw (Error "Invalid JSON path.")).
Proof.
  assert (T : forall path : string,
             existsb (allChars isOpen) (splitDots path) = true ->
             parseJsonPath path = Throw (Error "Invalid JSON path.")).
  { intros path H. unfold parseJsonPath.
    rewrite (proj1 (parseFragments_throws _)), H. reflexivity. }
  split; [exact T | split; [| split; [| split]]].
  - intros path H. unfold parseJsonPath.
    destruct (proj2 (parseFragments_throws _) H) as [result ->]. eauto.
  - intros s. apply T. reflexivity.
  - intros s. apply T. rewrite splitDots_app, existsb_app. simpl.
    apply orb_true_r.
  - intros s t. apply T.
    change (s ++ ".." ++ t) with (s ++ String "." (String "." t)).
    rewrite splitDots_app, existsb_app. simpl. apply orb_true_r.
Qed.

Lemma parseJsonPath_throws_on_nameless_piece_witness :
  parseJsonPath "a.[[" = Throw (Error "Invalid JSON path.")
  /\ exists steps, parseJsonPath "a[0]].b" = Return steps.
Proof.
  split.
  - apply (proj1 parseJsonPath_throws_on_nameless_piece). reflexivity.
  - apply (proj1 (proj2 parseJsonPath_throws_on_nameless_piece)).
    reflexivity.
Defined.

(** *** What the steps look like *)

Lemma allChars_skipOpens (p : ascii -> bool) (s : string) :
  allChars p s = true -> allChars p (skipOpens s) = true.
Proof.
  induction s as [| c s IH]; simpl; [reflexivity |].
  intros H. destruct (isOpen c); [| exact H].
  apply andb_true_iff in H as [_ H]. now apply IH.
Qed.

Lemma allChars_spanName (p : ascii -> bool) (s : string) :
  allChars p s = true ->
  allChars p (fst (spanName s)) = true /\ allChars p (snd (spanName s)) = true.
Proof.
  induction s as [| c s IH]; simpl; [auto |].
  intros H. destruct (isOpen c); [simpl; auto |].
  apply andb_true_iff in H as [H1 H2]. destruct (IH H2) as [I1 I2].
  destruct (spanName s). simpl in *. now rewrite H1, I1.
Qed.

Lemma allChars_throughLastClose (p : ascii -> bool) (s matched : string) :
  allChars p s = true -> throughLastClose s = Some matched ->
  allChars p matched = true.
Proof.
  revert matched. induction s as [| c s IH]; simpl; [discriminate |].
  intros matched H. apply andb_true_iff in H as [H1 H2].
  destruct (isLineTerminator c); [discriminate |].
  destruct (throughLastClose s) as [m |].
  - intros E. injection E as <-. simpl. now rewrite H1, (IH m H2).
  - destruct (isClose c); [| discriminate].
    intros E. injection E as <-. simpl. now rewrite H1.
Qed.

Lemma allChars_bracketGroups (p : ascii -> bool) (s : string) :
  allChars p s = true -> allChars p (bracketGroups s) = true.
Proof.
  destruct s as [| c s]; [reflexivity |]. simpl. intros H.
  apply andb_true_iff in H as [H1 H2].
  destruct (isOpen c); [| reflexivity].
  destruct (throughLastClose s) as [m |] eqn:E; [| reflexivity].
  simpl. now rewrite H1, (allChars_throughLastClose p s m H2 E).
Qed.

Lemma allChars_dropLast (p : ascii -> bool) (s : string) :
  allChars p s = true -> allChars p (dropLast s) = true.
Proof.
  induction s as [| c s IH]; [reflexivity |].
  intros H. simpl in H. apply andb_true_iff in H as [H1 H2].
  specialize (IH H2). destruct s as [| a s]; [reflexivity |].
  change (dropLast (String c (String a s)))
    with (String c (dropLast (String a s))).
  cbn [allChars]. rewrite H1. exact IH.
Qed.

Lemma allChars_splitCloseOpen (p : ascii -> bool) (s : string) :
  allChars p s = true -> forallb (allChars p) (splitCloseOpen s) = true.
Proof.
  assert (G : forall n s, String.length s <= n -> allChars p s = true ->
                          forallb (allChars p) (splitCloseOpen s) = true).
  { induction n as [| n IH]; intros [| c rest] L H; try reflexivity;
      simpl in L; [lia |].
    simpl in H. apply andb_true_iff in H as [H1 H2].
    assert (K : forallb (allChars p)
                  match splitCloseOpen rest with
                  | piece :: pieces => String c piece :: pieces
                  | [] => [String c ""]
                  end = true).
    { pose proof (IH rest ltac:(lia) H2) as I.
      destruct (splitCloseOpen rest) as [| piece pieces]; simpl in *;
        [now rewrite H1 |].
      apply andb_true_iff in I as [I1 I2]. now rewrite H1, I1, I2. }
    simpl. destruct rest as [| c' rest']; [exact K |].
    destruct (isClose c && isOpen c'); [| exact K].
    simpl in H2. apply andb_true_iff in H2 as [_ H2].
    simpl. apply IH; [simpl in L; lia | exact H2]. }
  apply (G (String.length s)). lia.
Qed.

Lemma allChars_pushed (p : ascii -> bool) (fragment match1 match2 : string) :
  allChars p fragment = true ->
  matchFragment fragment = Some (match1, match2) ->
  forallb (allChars p) (pushed match1 match2) = true.
Proof.
  intros H M. unfold matchFragment in M.
  pose proof (allChars_skipOpens p fragment H) as S.
  destruct (skipOpens fragment) as [| c rest]; [discriminate |].
  destruct (allChars_spanName p _ S) as [N A].
  destruct (spanName (String c rest)) as [name after].
  injection M as <- <-. simpl in N, A.
  unfold pushed. simpl. rewrite N. simpl.
  pose proof (allChars_bracketGroups p after A) as B.
  destruct (bracketGroups after) as [| b bs]; [reflexivity |].
  apply allChars_splitCloseOpen. unfold slice_1_m1.
  apply allChars_dropLast. simpl in B.
  now apply andb_true_iff in B as [_ B].
Qed.

Lemma allChars_parseFragments (p : ascii -> bool) (fragments result : list string) :
  forallb (allChars p) fragments = true ->
  parseFragments fragments = Return result ->
  forallb (allChars p) result = true.
Proof.
  revert result.
  induction fragments as [| f more IH]; cbn [parseFragments forallb];
    intros result H.
  - intros E. now injection E as <-.
  - apply andb_true_iff in H as [H1 H2].
    destruct (matchFragment f) as [[m1 m2] |] eqn:M; [| discriminate].
    destruct (parseFragments more) as [r |]; [| discriminate].
    intros E. injection E as <-.
    change (forallb (allChars p) (pushed m1 m2 ++ r)%list = true).
    rewrite forallb_app, (allChars_pushed p f m1 m2 H1 M).
    now apply IH.
Qed.

Lemma splitDots_no_dots (s : string) :
  forallb (allChars notDot) (splitDots s) = true.
Proof.
  induction s as [| c s IH]; [reflexivity |].
  simpl. destruct (isDot c) eqn:E; [exact IH |].
  destruct (splitDots s) as [| piece pieces]; simpl in *.
  - unfold notDot. now rewrite E.
  - unfold notDot at 1. now rewrite E.
Qed.

Lemma forallb_filter (A : Type) (p q : A -> bool) (l : list A) :
  forallb p l = true -> forallb p (filter q l) = true.
Proof.
  induction l as [| x l IH]; simpl; [reflexivity |].
  intros H. apply andb_true_iff in H as [H1 H2].
  destruct (q x); simpl; [now rewrite H1, IH | now apply IH].
Qed.

Lemma forallb_filter_self (A : Type) (q : A -> bool) (l : list A) :
  forallb q (filter q l) = true.
Proof.
  induction l as [| x l IH]; simpl; [reflexivity |].
  destruct (q x) eqn:E; simpl; [now rewrite E |exact IH].
Qed.

Lemma parseFragments_head (fragment : string) (more result : list string) :
  parseFragments (fragment :: more) = Return result ->
  exists match1 others,
    result = match1 :: others /\ truthy match1 = true.
Proof.
  simpl. destruct (matchFragment fragment) as [[m1 m2] |] eqn:M;
    [| discriminate].
  destruct (parseFragments more); [| discriminate].
  intros E. injection E as <-. unfold pushed. simpl.
  eexists _, _. split; [reflexivity |]. now apply matchFragment_name in M.
Qed.

Lemma parseJsonPath_not_nil (path : string) (steps : list string) :
  parseJsonPath path = Return steps -> steps <> [].
Proof.
  unfold parseJsonPath. pose proof (splitDots_not_nil path) as NE.
  destruct (splitDots path) as [| f more]; [congruence |].
  destruct (parseFragments (f :: more)) as [result |] eqn:E; [| discriminate].
  apply parseFragments_head in E as (m1 & others & -> & T).
  intros H. injection H as <-. simpl. rewrite T. discriminate.
Qed.

(** X1 (what the parser returns): whenever [parseJsonPath] returns, it
    returns at least one step, no step is the empty string and no step holds
    a dot. *)
Theorem parseJsonPath_steps_shape :
  forall (path : string) (steps : list string),
    parseJsonPath path = Return steps ->
    steps <> []
    /\ forallb truthy steps = true
    /\ forallb (allChars notDot) steps = true.
Proof.
  intros path steps H. split; [now apply parseJsonPath_not_nil in H |].
  unfold parseJsonPath in H.
  destruct (parseFragments (splitDots path)) as [result |] eqn:E;
    [| discriminate].
  injection H as <-. split; [apply forallb_filter_self |].
  apply forallb_filter.
  exact (allChars_parseFragments notDot _ _ (splitDots_no_dots path) E).
Qed.

Lemma parseJsonPath_steps_shape_witness :
  ["a"; "1]"; "b"] <> []
  /\ forallb truthy ["a"; "1]"; "b"] = true
  /\ forallb (allChars notDot) ["a"; "1]"; "b"] = true.
Proof.
  apply (parseJsonPath_steps_shape "a[1]][].b"). reflexivity.
Defined.

(** ** The parser and the walks together *)

(** X7 (a set into the empty document): for every path that parses to steps
    none of which names a member of [Object.prototype], a set into the empty
    object succeeds and leaves one object nested in another for each step,
    bracketed steps included, with the new value innermost; reading the same
    path from it gives the value back.  No array is made: a set at [a[0]]
    gives an object with the key 0 under [a]. *)
Theorem setValueFromPath_into_empty_object :
  (forall (outside : JsonValue -> list fragment -> JsonValue
                     -> JsValue * JsonValue)
          (path : string) (steps : list string) (newValue : JsonValue),
      parseJsonPath path = Return steps ->
      plainPath (fragmentsOf steps) = true ->
      setValueFromPath outside (JObject []) path newValue
      = Return (Doc newValue, nest steps newValue)
      /\ getValueFromPath (nest steps newValue) path = Return (Doc newValue))
  /\ (forall outside (newValue : JsonValue),
         setValueFromPath outside (JObject []) "a[0]" newValue
         = Return (Doc newValue,
                   JObject [("a", JObject [("0", newValue)])])).
Proof.
  assert (G : forall outside (path : string) (steps : list string)
                     (newValue : JsonValue),
      parseJsonPath path = Return steps ->
      plainPath (fragmentsOf steps) = true ->
      setValueFromPath outside (JObject []) path newValue
      = Return (Doc newValue, nest steps newValue)
      /\ getValueFromPath (nest steps newValue) path = Return (Doc newValue)).
  { intros outside path steps newValue H PP.
    unfold setValueFromPath, getValueFromPath.
    rewrite H. pose proof (parseJsonPath_not_nil path steps H) as NE.
    destruct steps as [| key keys]; [congruence |].
    rewrite (setValueFromFragments_inside outside _ _ _ _ _
               (setWalk_nest keys key newValue PP)).
    unfold getValueFromFragments. now rewrite getFrom_nest. }
  split; [exact G |].
  intros outside newValue.
  now apply (G outside "a[0]" ["a"; "0"] newValue).
Qed.

Lemma setValueFromPath_into_empty_object_witness :
  setValueFromPath notConsulted (JObject []) "projects.app[x].root"
    (JString "src")
  = Return (Doc (JString "src"),
            nest ["projects"; "app"; "x"; "root"] (JString "src"))
  /\ getValueFromPath (nest ["projects"; "app"; "x"; "root"] (JString "src"))
       "projects.app[x].root"
     = Return (Doc (JString "src")).
Proof.
  apply (proj1 setValueFromPath_into_empty_object); reflexivity.
Defined.

Lemma fragmentsOf_app (p q : list string) :
  fragmentsOf (p ++ q)%list = (fragmentsOf p ++ fragmentsOf q)%list.
Proof. apply map_app. Qed.

(** X8 (arrays cannot be entered from a path string): every step that
    [parseJsonPath] returns is a string, so when the steps before some step
    lead to an array, [getValueFromPath] returns [undefined] and
    [setValueFromPath] returns [undefined] and leaves the document as it
    was, whatever the step. *)
Theorem path_string_stops_at_array :
  forall (outside : JsonValue -> list fragment -> JsonValue
                    -> JsValue * JsonValue)
         (root : JsonValue) (path : string) (before : list string)
         (step : string) (after : list string) (newValue : JsonValue),
    parseJsonPath path = Return (before ++ step :: after)%list ->
    isArray (getValueFromFragments root (fragmentsOf before)) = true ->
    getValueFromPath root path = Return (Doc JUndefined)
    /\ setValueFromPath outside root path newValue
       = Return (Doc JUndefined, root).
Proof.
  intros outside root path before step after newValue H A.
  unfold getValueFromPath, setValueFromPath.
  rewrite H, fragmentsOf_app.
  change (fragmentsOf (step :: after))
    with (FString step :: fragmentsOf after).
  unfold getValueFromFragments in *.
  split; f_equal.
  - rewrite getFrom_app, getFrom_cons.
    destruct (getFrom root (fragmentsOf before)) as [[] | |];
      try discriminate.
    apply getFrom_undefined.
  - apply setValueFromFragments_inside. apply setWalk_rejected;
      destruct (getFrom root (fragmentsOf before)) as [[] | |];
      try discriminate; reflexivity.
Qed.

Lemma path_string_stops_at_array_witness :
  getValueFromPath (JObject [("a", JArray [JNumber 1; JNumber 2])]) "a[0]"
  = Return (Doc JUndefined)
  /\ setValueFromPath notConsulted
       (JObject [("a", JArray [JNumber 1; JNumber 2])]) "a[0]" (JNumber 5)
     = Return (Doc JUndefined, JObject [("a", JArray [JNumber 1; JNumber 2])]).
Proof.
  apply (path_string_stops_at_array notConsulted
           (JObject [("a", JArray [JNumber 1; JNumber 2])]) "a[0]"
           ["a"] "0" [] (JNumber 5)); reflexivity.
Defined.
(** ** Further properties of the normalizer *)

Lemma mapGet_key (entries : list (string * string)) (key v : string) :
  mapGet entries key = Some v -> In key (map fst entries).
Proof.
  induction entries as [| [k w] rest IH]; simpl; [discriminate |].
  destruct (String.eqb k key) eqn:E; intros H.
  - left. now apply String.eqb_eq.
  - right. auto.
Qed.

Lemma validCliPaths_registered (path kind : string) :
  validCliPaths path = Some kind ->
  (path = "cli.warnings.versionMismatch" /\ kind = "boolean")
  \/ (path = "cli.warnings.typescriptMismatch" /\ kind = "boolean")
  \/ (path = "cli.defaultCollection" /\ kind = "string")
  \/ (path = "cli.packageManager" /\ kind = "string").
Proof.
  intros H. pose proof (mapGet_key _ _ _ H) as K. simpl in K.
  destruct K as [K | [K | [K | [K | []]]]]; subst path;
    vm_compute in H; injection H as <-; tauto.
Qed.

(** X9 (registered paths): for a path of the registry the JSON parser plays
    no part; a path registered as a string never fails and returns the raw
    value as it is, a number or a boolean included, and a path registered as
    a boolean returns a boolean or throws the invalid-value-type error. *)
Theorem normalizeValue_registered :
  forall (numberToString : float -> string) (stringToNumber : string -> float)
         (parseJson parseJson' : string -> outcome JsonValue)
         (raw : ConfigCommandSchemaValue) (path kind : string),
    validCliPaths path = Some kind ->
    normalizeValue numberToString stringToNumber parseJson raw path
    = normalizeValue numberToString stringToNumber parseJson' raw path
    /\ (kind = "string" ->
        normalizeValue numberToString stringToNumber parseJson raw path
        = Return (jsonOf raw))
    /\ (kind = "boolean" ->
        (exists b, normalizeValue numberToString stringToNumber parseJson raw
                     path = Return (JBoolean b))
        \/ normalizeValue numberToString stringToNumber parseJson raw path
           = Throw (Error "Invalid value type; expected a boolean.")).
Proof.
  intros numberToString stringToNumber parseJson parseJson' raw path kind H.
  pose proof (validCliPaths_kinds path kind H) as K.
  unfold normalizeValue. rewrite H.
  destruct K as [-> | ->]; (split; [reflexivity |]); split;
    try discriminate; intros _; try reflexivity.
  unfold normalizeCliOption. simpl.
  destruct (String.eqb (trim (stringOf numberToString raw)) "true");
    [left; eauto |].
  destruct (String.eqb (trim (stringOf numberToString raw)) "false");
    [left; eauto | now right].
Qed.

Lemma normalizeValue_registered_witness :
  normalizeValue (fun _ => "") decimalToNumber parseJsonWords
    (VNumber 7) "cli.packageManager"
  = Return (jsonOf (VNumber 7)).
Proof.
  apply (proj1 (proj2 (normalizeValue_registered (fun _ => "") decimalToNumber
                         parseJsonWords parseJsonWords (VNumber 7)
                         "cli.packageManager" "string" eq_refl))).
  reflexivity.
Defined.

(** ** The command *)

Lemma strictUndefined_false (v : JsValue) :
  strictUndefined v = false -> v <> Doc JUndefined.
Proof. destruct v as [[] | |]; (discriminate || congruence). Qed.

Section CommandProperties.

Variable numberToString : float -> string.
Variable stringToNumber : string -> float.
Variable parseJson : string -> outcome JsonValue.
Variable getWorkspaceRaw : bool -> option JsonValue * option string.
Variable validateWorkspace : JsonValue -> option string.
Variable stringify : JsonValue -> string.
Variable writeFileSync : string -> string -> option exception.
Variable outside :
  JsonValue -> list fragment -> JsonValue -> JsValue * JsonValue.
Variable functionToString : string -> string.

Local Notation "'setCommand'" :=
  (set numberToString stringToNumber parseJson getWorkspaceRaw
     validateWorkspace stringify writeFileSync outside).
Local Notation "'getCommand'" :=
  (get numberToString stringify functionToString).
Local Notation "'normalize'" :=
  (normalizeValue numberToString stringToNumber parseJson).

Local Ltac stopped H :=
  destruct H as [H | H];
  [exfalso; apply H; reflexivity | cbn in H; discriminate H].

(** What a run of [set] that reaches the loaded file looks like. *)
Lemma set_reaches_file (options : ConfigCommandSchema) :
  written (setCommand options) <> []
  \/ exit (setCommand options) = Return 0 ->
  exists path configValue configPath,
    jsonPath options = Some path
    /\ truthy path = true
    /\ (global options = true ->
        startsWith "schematics." path = true \/ validCliPathsHas path = true)
    /\ getWorkspaceRaw (global options) = (Some configValue, Some configPath)
    /\ setCommand options
       = setLoaded numberToString stringToNumber parseJson validateWorkspace
           stringify writeFileSync outside configValue configPath path
           options.
Proof.
  unfold set. intros H.
  destruct (jsonPath options) as [path |];
    [| stopped H].
  destruct (truthy path) eqn:T; cbn [negb orb] in H |- *.
  2: { stopped H. }
  destruct (negb (truthy (trim path))).
  { stopped H. }
  destruct (global options && negb (startsWith "schematics." path)
            && negb (validCliPathsHas path)) eqn:G.
  { stopped H. }
  destruct (getWorkspaceRaw (global options)) as [[cv |] [cp |]];
    try solve [stopped H].
  destruct (truthy cp).
  2: { stopped H. }
  exists path, cv, cp. repeat split; try reflexivity; try exact T.
  intros GL. rewrite GL in G.
  destruct (startsWith "schematics." path); [now left |].
  destruct (validCliPathsHas path); [now right | discriminate G].
Qed.

Lemma setLoaded_success (configValue : JsonValue) (configPath path : string)
  (options : ConfigCommandSchema) :
  truthy path = true ->
  protoFree path = true ->
  exit (setLoaded numberToString stringToNumber parseJson validateWorkspace
          stringify writeFileSync outside configValue configPath path
          options)
  = Return 0 ->
  exists normalized updated,
    normalize (valueOrEmpty (value options)) path = Return normalized
    /\ normalized <> JUndefined
    /\ setValueFromPath outside configValue path normalized
       = Return (Doc normalized, updated)
    /\ validateWorkspace updated = None
    /\ writeFileSync configPath (stringify updated) = None
    /\ written (setLoaded numberToString stringToNumber parseJson
                  validateWorkspace stringify writeFileSync outside
                  configValue configPath path options)
       = [(configPath, stringify updated)]
    /\ logged (setLoaded numberToString stringToNumber parseJson
                 validateWorkspace stringify writeFileSync outside
                 configValue configPath path options)
       = []
    /\ getValueFromPath updated path = Return (Doc normalized).
Proof.
  intros T PF. unfold setLoaded.
  destruct (normalize (valueOrEmpty (value options)) path)
    as [normalized |]; [| discriminate].
  destruct (setValueFromPath outside configValue path normalized)
    as [[result updated] |] eqn:S; [| discriminate].
  destruct (strictUndefined result) eqn:U; [discriminate |].
  destruct (validateWorkspace updated) eqn:V; [discriminate |].
  cbn [exit written logged].
  destruct (writeFileSync configPath (stringify updated)) eqn:W;
    [discriminate |].
  intros _. apply strictUndefined_false in U.
  unfold setValueFromPath, getValueFromPath, protoFree in *.
  destruct (parseJsonPath path) as [steps |] eqn:P; [| discriminate].
  injection S as S.
  assert (NE : fragmentsOf steps <> []).
  { apply parseJsonPath_not_nil in P. now apply fragmentsOf_not_nil. }
  destruct (setWalk_total (fragmentsOf steps) configValue normalized PF)
    as (r & d' & E).
  rewrite (setValueFromFragments_inside outside _ _ _ _ _ E) in S.
  apply pair_equal_spec in S as [-> ->].
  pose proof (setWalk_result _ _ _ _ _ PF NE E) as R.
  pose proof (setWalk_get_same _ _ _ _ _ PF NE E U) as G.
  destruct R as [-> | ->]; [| congruence].
  exists normalized, updated.
  repeat split; auto.
  - intros ->. now apply U.
  - f_equal. now apply setValueFromFragments_inside.
  - f_equal. exact G.
Qed.

(** X10 (a successful set is persisted): on a path none of whose steps is
    the key [__proto__], when [set] returns 0 it has called [writeFileSync]
    once, on the path of the loaded file, with the serialization of a
    document that passed validation and in which reading the path of the
    options gives the normalized value; it has logged nothing. *)
Theorem set_success_persists :
  forall options : ConfigCommandSchema,
    avoidsProto options = true ->
    exit (setCommand options) = Return 0 ->
    exists path configValue configPath normalized updated,
      jsonPath options = Some path
      /\ getWorkspaceRaw (global options) = (Some configValue, Some configPath)
      /\ normalize (valueOrEmpty (value options)) path = Return normalized
      /\ validateWorkspace updated = None
      /\ written (setCommand options) = [(configPath, stringify updated)]
      /\ logged (setCommand options) = []
      /\ getValueFromPath updated path = Return (Doc normalized).
Proof.
  intros options AP H.
  destruct (set_reaches_file options (or_intror H))
    as (path & cv & cp & J & T & _ & W & E).
  rewrite E in *. unfold avoidsProto in AP. rewrite J in AP.
  destruct (setLoaded_success cv cp path options T AP H)
    as (normalized & updated & N & _ & _ & V & _ & WR & L & G).
  exists path, cv, cp, normalized, updated. auto 10.
Qed.

(** X11 (a set that fails writes nothing): [set] returns 0 or 1; when it
    returns 1 it has logged one message and has not called [writeFileSync];
    when it throws, either [writeFileSync] was not called or the error is the
    one [writeFileSync] threw. *)
Theorem set_failure_writes_nothing :
  forall options : ConfigCommandSchema,
    (forall code : nat,
        exit (setCommand options) = Return code ->
        code = 0
        \/ (code = 1 /\ written (setCommand options) = []
            /\ exists entry, logged (setCommand options) = [entry]))
    /\ (forall e : exception,
           exit (setCommand options) = Throw e ->
           written (setCommand options) = []
           \/ exists configPath output,
               written (setCommand options) = [(configPath, output)]
               /\ writeFileSync configPath output = Some e).
Proof.
  intros options. unfold set, setLoaded.
  destruct (jsonPath options) as [path |];
    [| split; intros ? H; [discriminate | now left]].
  destruct (negb (truthy path) || negb (truthy (trim path)));
    [split; intros ? H; [discriminate | now left] |].
  destruct (global options && negb (startsWith "schematics." path)
            && negb (validCliPathsHas path));
    [split; intros ? H; [discriminate | now left] |].
  assert (NF : forall message, 
             (forall code : nat,
                 exit (returned 1 [LogError message]) = Return code ->
                 code = 0
                 \/ (code = 1 /\ written (returned 1 [LogError message]) = []
                     /\ exists entry,
                         logged (returned 1 [LogError message]) = [entry]))
             /\ (forall e : exception,
                    exit (returned 1 [LogError message]) = Throw e ->
                    written (returned 1 [LogError message]) = []
                    \/ exists configPath output,
                        written (returned 1 [LogError message])
                        = [(configPath, output)]
                        /\ writeFileSync configPath output = Some e)).
  { intros message. split; intros ? H; [| discriminate].
    injection H as <-. right.
    split; [reflexivity | split; [reflexivity |]].
    eexists. reflexivity. }
  destruct (getWorkspaceRaw (global options)) as [[cv |] [cp |]];
    try apply NF.
  destruct (truthy cp); [| apply NF].
  destruct (normalize (valueOrEmpty (value options)) path)
    as [normalized |]; [| split; intros ? H; [discriminate | now left]].
  destruct (setValueFromPath outside cv path normalized)
    as [[result updated] |];
    [| split; intros ? H; [discriminate | now left]].
  destruct (strictUndefined result); [apply NF |].
  destruct (validateWorkspace updated) as [message |].
  { split; intros ? H; [| discriminate].
    injection H as <-. right.
    split; [reflexivity | split; [reflexivity |]].
    eexists. reflexivity. }
  cbn [exit written logged].
  destruct (writeFileSync cp (stringify updated)) eqn:W;
    split; intros ? H; try discriminate.
  - injection H as <-. right. eauto.
  - injection H as <-. now left.
Qed.

(** X12 (what the global level accepts): with the global option, [set] calls
    [writeFileSync] only for a path that starts with [schematics.] or is one
    of the four paths of the registry. *)
Theorem set_global_writes_only_allowed_paths :
  forall (options : ConfigCommandSchema) (path : string),
    global options = true ->
    jsonPath options = Some path ->
    written (setCommand options) <> [] ->
    startsWith "schematics." path = true
    \/ In path ["cli.warnings.versionMismatch";
                "cli.warnings.typescriptMismatch";
                "cli.defaultCollection"; "cli.packageManager"].
Proof.
  intros options path G J W.
  destruct (set_reaches_file options (or_introl W))
    as (path' & _ & _ & J' & _ & A & _).
  rewrite J in J'. injection J' as <-.
  destruct (A G) as [S | H]; [now left | right].
  unfold validCliPathsHas in H.
  destruct (validCliPaths path) as [kind |] eqn:V; [| discriminate].
  apply validCliPaths_registered in V.
  destruct V as [[-> _] | [[-> _] | [[-> _] | [-> _]]]]; simpl; auto.
Qed.

(** X13 (set, then get): on a path none of whose steps is the key
    [__proto__], when [set] returns 0, [get] with the same options on the
    document that was written returns 0 and logs one line, the normalized
    value: serialized when it is an object, an array or [null], and as its
    own text otherwise. *)
Theorem set_then_get_logs_value :
  forall options : ConfigCommandSchema,
    avoidsProto options = true ->
    exit (setCommand options) = Return 0 ->
    exists configPath updated normalized path,
      jsonPath options = Some path
      /\ written (setCommand options) = [(configPath, stringify updated)]
      /\ normalize (valueOrEmpty (value options)) path = Return normalized
      /\ getCommand updated options
         = {| exit := Return 0;
              logged := [LogInfo (if typeofObject normalized
                                  then stringify normalized
                                  else primitiveToString numberToString
                                         normalized)];
              written := [] |}.
Proof.
  intros options AP H.
  destruct (set_reaches_file options (or_intror H))
    as (path & cv & cp & J & T & _ & W & E).
  rewrite E in *. unfold avoidsProto in AP. rewrite J in AP.
  destruct (setLoaded_success cv cp path options T AP H)
    as (normalized & updated & N & U & _ & _ & _ & WR & _ & G).
  exists cp, updated, normalized, path. repeat split; auto.
  unfold get. rewrite J, T, G.
  destruct normalized; try congruence; reflexivity.
Qed.

(** X14 (a falsy raw value): [set] normalizes [options.value || ''], so a
    value that is missing, empty, the boolean false, zero or NaN counts as
    the empty string; on a path registered as a boolean, once the file is
    loaded, [set] then throws the invalid-value-type error and writes
    nothing.  The boolean false cannot be stored that way, the text false
    can. *)
Theorem set_falsy_value_on_boolean_path :
  forall (options : ConfigCommandSchema) (path : string)
         (configValue : JsonValue) (configPath : string),
    jsonPath options = Some path ->
    validCliPaths path = Some "boolean" ->
    valueOrEmpty (value options) = VString "" ->
    getWorkspaceRaw (global options) = (Some configValue, Some configPath) ->
    truthy configPath = true ->
    setCommand options
    = thrown (Error "Invalid value type; expected a boolean.") [].
Proof.
  intros options path configValue configPath J V E W T.
  assert (N : normalize (VString "") path
              = Throw (Error "Invalid value type; expected a boolean.")).
  { unfold normalizeValue. rewrite V. reflexivity. }
  assert (H : validCliPathsHas path = true)
    by (unfold validCliPathsHas; now rewrite V).
  assert (P : negb (truthy path) || negb (truthy (trim path)) = false).
  { apply validCliPaths_registered in V.
    destruct V as [[-> _] | [[-> _] | [[_ V] | [_ V]]]];
      try discriminate; reflexivity. }
  unfold set, setLoaded. rewrite J, P, H, W, T, E, N.
  now rewrite !andb_false_r.
Qed.

End CommandProperties.

Lemma set_success_persists_witness :
  exists path configValue configPath normalized updated,
    jsonPath {| global := false; jsonPath := Some "schematics.foo";
                value := Some (VString "42") |} = Some path
    /\ emptyWorkspaceRaw false = (Some configValue, Some configPath)
    /\ normalizeValue (fun _ => "") decimalToNumber parseJsonWords
         (valueOrEmpty (Some (VString "42"))) path = Return normalized
    /\ acceptWorkspace updated = None
    /\ written (set (fun _ => "") decimalToNumber parseJsonWords
                  emptyWorkspaceRaw acceptWorkspace showJson
                  writeSucceeds notConsulted
                  {| global := false; jsonPath := Some "schematics.foo";
                     value := Some (VString "42") |})
       = [(configPath, showJson updated)]
    /\ logged (set (fun _ => "") decimalToNumber parseJsonWords
                 emptyWorkspaceRaw acceptWorkspace showJson
                  writeSucceeds notConsulted
                 {| global := false; jsonPath := Some "schematics.foo";
                    value := Some (VString "42") |})
       = []
    /\ getValueFromPath updated path = Return (Doc normalized).
Proof.
  apply (set_success_persists (fun _ => "") decimalToNumber parseJsonWords
           emptyWorkspaceRaw acceptWorkspace showJson
                  writeSucceeds notConsulted
           {| global := false; jsonPath := Some "schematics.foo";
              value := Some (VString "42") |});
    reflexivity.
Defined.

Lemma set_failure_writes_nothing_witness :
  1 = 0
  \/ (1 = 1
      /\ written (set (fun _ => "") decimalToNumber parseJsonWords
                    noWorkspaceRaw acceptWorkspace showJson
                  writeSucceeds notConsulted
                    {| global := false; jsonPath := Some "a.b";
                       value := Some (VString "1") |}) = []
      /\ exists entry,
          logged (set (fun _ => "") decimalToNumber parseJsonWords
                    noWorkspaceRaw acceptWorkspace showJson
                  writeSucceeds notConsulted
                    {| global := false; jsonPath := Some "a.b";
                       value := Some (VString "1") |}) = [entry]).
Proof.
  apply (proj1 (set_failure_writes_nothing (fun _ => "") decimalToNumber
                  parseJsonWords noWorkspaceRaw acceptWorkspace showJson
                 
                  writeSucceeds notConsulted
                  {| global := false; jsonPath := Some "a.b";
                     value := Some (VString "1") |}) 1).
  reflexivity.
Defined.

Lemma set_global_writes_only_allowed_paths_witness :
  startsWith "schematics." "cli.packageManager" = true
  \/ In "cli.packageManager"
       ["cli.warnings.versionMismatch"; "cli.warnings.typescriptMismatch";
        "cli.defaultCollection"; "cli.packageManager"].
Proof.
  apply (set_global_writes_only_allowed_paths (fun _ => "") decimalToNumber
           parseJsonWords emptyWorkspaceRaw acceptWorkspace showJson
          
                  writeSucceeds notConsulted
           {| global := true; jsonPath := Some "cli.packageManager";
              value := Some (VString "yarn") |} "cli.packageManager");
    [reflexivity | reflexivity | discriminate].
Defined.

Lemma set_then_get_logs_value_witness :
  exists configPath updated normalized path,
    jsonPath {| global := false; jsonPath := Some "schematics.foo.bar";
                value := Some (VString "plain-text") |} = Some path
    /\ written (set (fun _ => "") decimalToNumber parseJsonWords
                  emptyWorkspaceRaw acceptWorkspace showJson
                  writeSucceeds notConsulted
                  {| global := false; jsonPath := Some "schematics.foo.bar";
                     value := Some (VString "plain-text") |})
       = [(configPath, showJson updated)]
    /\ normalizeValue (fun _ => "") decimalToNumber parseJsonWords
         (valueOrEmpty (Some (VString "plain-text"))) path
       = Return normalized
    /\ get (fun _ => "") showJson nativeCode updated
         {| global := false; jsonPath := Some "schematics.foo.bar";
            value := Some (VString "plain-text") |}
       = {| exit := Return 0;
            logged := [LogInfo (if typeofObject normalized
                                then showJson normalized
                                else primitiveToString (fun _ => "")
                                       normalized)];
            written := [] |}.
Proof.
  apply (set_then_get_logs_value (fun _ => "") decimalToNumber parseJsonWords
           emptyWorkspaceRaw acceptWorkspace showJson
                  writeSucceeds notConsulted nativeCode
           {| global := false; jsonPath := Some "schematics.foo.bar";
              value := Some (VString "plain-text") |});
    reflexivity.
Defined.

Lemma set_falsy_value_on_boolean_path_witness :
  set (fun _ => "") decimalToNumber parseJsonWords emptyWorkspaceRaw
    acceptWorkspace showJson
                  writeSucceeds notConsulted
    {| global := true; jsonPath := Some "cli.warnings.versionMismatch";
       value := Some (VBoolean false) |}
  = thrown (Error "Invalid value type; expected a boolean.") [].
Proof.
  apply (set_falsy_value_on_boolean_path (fun _ => "") decimalToNumber
           parseJsonWords emptyWorkspaceRaw acceptWorkspace showJson
          
                  writeSucceeds notConsulted
           {| global := true; jsonPath := Some "cli.warnings.versionMismatch";
              value := Some (VBoolean false) |}
           "cli.warnings.versionMismatch" (JObject [])
           "~/.angular-config.json"); reflexivity.
Defined.


(** ** What objects inherit *)

Lemma isInheritedFunction_not_proto (key : string) :
  isInheritedFunction key = true -> isProto key = false.
Proof.
  intros H. unfold isProto. destruct (String.eqb key "__proto__") eqn:E;
    [| reflexivity].
  apply String.eqb_eq in E. subst key. discriminate.
Qed.

(** X17 (reading finds what every object inherits): at a key an object of
    the document does not have, a read gives the member of
    [Object.prototype] of that name if there is one: the function for
    [constructor], [toString] and the like, [Object.prototype] itself for
    [__proto__], and [undefined] for any other key; below an inherited
    function every further step gives [undefined].  So [get] at
    [constructor] returns 0 and logs the text of a function. *)
Theorem get_reads_inherited_members :
  (forall (properties : list (string * JsonValue)) (key : string),
      hasOwn properties key = false ->
      getValueFromFragments (JObject properties) [FString key]
      = if isProto key then ObjectPrototype
        else if isInheritedFunction key then BuiltinFunction key
        else JUndefined)
  /\ (forall (properties : list (string * JsonValue)) (key : string)
             (current : fragment) (rest : list fragment),
         hasOwn properties key = false ->
         isInheritedFunction key = true ->
         getValueFromFragments (JObject properties)
           (FString key :: current :: rest)
         = JUndefined)
  /\ getValueFromPath (JObject [("a", JString "x")]) "constructor"
     = Return (BuiltinFunction "constructor")
  /\ getValueFromPath (JObject []) "__proto__" = Return ObjectPrototype
  /\ get (fun _ => "") showJson nativeCode (JObject [("a", JString "x")])
       {| global := false; jsonPath := Some "constructor"; value := None |}
     = {| exit := Return 0;
          logged := [LogInfo "function Object() { [native code] }"];
          written := [] |}
  /\ get (fun _ => "") showJson nativeCode (JObject [("a", JString "x")])
       {| global := false; jsonPath := Some "__proto__"; value := None |}
     = {| exit := Return 0; logged := [LogInfo "{}"]; written := [] |}.
Proof.
  split; [| split; [| repeat split]].
  - intros properties key H. unfold hasOwn in H.
    unfold getValueFromFragments, getFrom. simpl.
    unfold getReducer. simpl. unfold getProperty.
    now destruct (ownProperty properties key).
  - intros properties key current rest H F. unfold hasOwn in H.
    unfold getValueFromFragments. rewrite getFrom_cons.
    unfold getReducer. simpl. unfold getProperty, inheritedMember.
    destruct (ownProperty properties key); [discriminate |].
    rewrite (isInheritedFunction_not_proto key F), F.
    apply getFrom_function_step.
Qed.

Lemma get_reads_inherited_members_witness :
  getValueFromFragments (JObject [("a", JNumber 1)]) [FString "toString"]
  = (if isProto "toString" then ObjectPrototype
     else if isInheritedFunction "toString" then BuiltinFunction "toString"
     else JUndefined)
  /\ getValueFromFragments (JObject [("a", JNumber 1)])
       (FString "valueOf" :: FString "name" :: [])
     = JUndefined.
Proof.
  split.
  - apply (proj1 get_reads_inherited_members). reflexivity.
  - apply (proj1 (proj2 get_reads_inherited_members)); reflexivity.
Defined.

(** X18 (a set at the key [__proto__] stores nothing): in an object that has
    no key [__proto__] of its own, a set of a boolean, a number or a string
    at [__proto__] calls the setter the object inherits, which ignores such
    a value: the set returns [Object.prototype], which is not [undefined],
    and the document is as it was.  So [set] with the path [__proto__] and
    the value 5 returns 0 and writes the document it loaded. *)
Theorem set_at_proto_key_stores_nothing :
  (forall (outside : JsonValue -> list fragment -> JsonValue
                     -> JsValue * JsonValue)
          (properties : list (string * JsonValue)) (newValue : JsonValue),
      hasOwn properties "__proto__" = false ->
      isScalar newValue = true ->
      setValueFromFragments outside (JObject properties)
        [FString "__proto__"] newValue
      = (ObjectPrototype, JObject properties))
  /\ (forall outside,
         set (fun _ => "") decimalToNumber parseJsonWords emptyWorkspaceRaw
           acceptWorkspace showJson writeSucceeds outside
           {| global := false; jsonPath := Some "__proto__";
              value := Some (VString "5") |}
         = {| exit := Return 0; logged := [];
              written := [("angular.json", showJson (JObject []))] |}).
Proof.
  split; [| reflexivity].
  intros outside properties newValue H SC.
  unfold setValueFromFragments. simpl.
  unfold assignMember. simpl. rewrite H. simpl.
  destruct newValue; try discriminate; simpl;
    unfold getProperty; unfold hasOwn in H;
    destruct (ownProperty properties "__proto__"); try discriminate;
    reflexivity.
Qed.

Lemma set_at_proto_key_stores_nothing_witness :
  setValueFromFragments notConsulted (JObject [("a", JNumber 1)])
    [FString "__proto__"] (JString "v")
  = (ObjectPrototype, JObject [("a", JNumber 1)]).
Proof.
  apply (proj1 set_at_proto_key_stores_nothing); reflexivity.
Defined.

(** X19 (a set cannot pass an inherited function): where an object has no
    key of its own under the name of a function of [Object.prototype], a
    set whose path goes on after that name finds the function there, makes
    nothing, returns [undefined] and leaves the document as it was. *)
Theorem set_through_inherited_function_fails :
  forall (outside : JsonValue -> list fragment -> JsonValue
                    -> JsValue * JsonValue)
         (properties : list (string * JsonValue)) (key : string)
         (next : fragment) (rest : list fragment) (newValue : JsonValue),
    hasOwn properties key = false ->
    isInheritedFunction key = true ->
    setValueFromFragments outside (JObject properties)
      (FString key :: next :: rest) newValue
    = (Doc JUndefined, JObject properties).
Proof.
  intros outside properties key next rest newValue H F.
  apply setValueFromFragments_inside.
  pose proof (isInheritedFunction_not_proto key F) as NP.
  assert (S : storesOwn (JObject properties) (FString key) = true)
    by (simpl; rewrite NP; apply orb_true_r).
  assert (M : member (JObject properties) (FString key)
              = BuiltinFunction key).
  { simpl. unfold getProperty, inheritedMember. unfold hasOwn in H.
    destruct (ownProperty properties key); [discriminate |].
    now rewrite NP, F. }
  destruct (setWalk_step_cases (JObject properties) (FString key)
              (next :: rest) newValue eq_refl S)
    as [(x & MX & _) | (name & _ & _ & E)]; [| exact E].
  rewrite member_store, M in MX by exact S. discriminate.
Qed.

Lemma set_through_inherited_function_fails_witness :
  setValueFromFragments notConsulted (JObject [("a", JNumber 1)])
    (FString "constructor" :: FString "a" :: []) (JNumber 5)
  = (Doc JUndefined, JObject [("a", JNumber 1)]).
Proof.
  apply (set_through_inherited_function_fails notConsulted
           [("a", JNumber 1)] "constructor" (FString "a") [] (JNumber 5));
    reflexivity.
Defined.
(** ** Brackets that do not close, and text after the last bracket *)

Lemma throughLastClose_no_close (s : string) :
  allChars notClose s = true -> throughLastClose s = None.
Proof.
  induction s as [| c s IH]; simpl; [reflexivity |].
  intros H. apply andb_true_iff in H as [H1 H2].
  unfold notClose in H1. apply negb_true_iff in H1.
  rewrite (IH H2), H1. now destruct (isLineTerminator c).
Qed.

Lemma throughLastClose_then_rest (x rest : string) :
  allChars onLine x = true ->
  allChars notClose rest = true ->
  throughLastClose (x ++ String "]" rest) = Some (x ++ "]").
Proof.
  intros L N. induction x as [| c x IH]; simpl.
  - now rewrite (throughLastClose_no_close rest N).
  - simpl in L. apply andb_true_iff in L as [L1 L2].
    unfold onLine in L1. apply negb_true_iff in L1.
    now rewrite L1, (IH L2).
Qed.

Lemma matchFragment_trailing (name : string) (groups : list string)
  (rest : string) :
  nameText name = true ->
  forallb plainText groups = true ->
  groups <> [] ->
  allChars notClose rest = true ->
  matchFragment (name ++ brackets groups ++ rest)
  = Some (name, brackets groups).
Proof.
  intros NT G NE R.
  apply nameText_parts in NT as (T & O & _).
  destruct name as [| c name]; [discriminate |].
  pose proof O as O'. simpl in O'. apply andb_true_iff in O' as [O1 _].
  unfold notOpen in O1. apply negb_true_iff in O1.
  destruct groups as [| g more]; [congruence |].
  rewrite brackets_join.
  change (String c name ++ String "[" (joinCloseOpen (g :: more) ++ "]")
          ++ rest)
    with (String c (name ++ String "[" ((joinCloseOpen (g :: more) ++ "]")
                                        ++ rest))).
  rewrite matchFragment_started by exact O1.
  change (String c (name ++ String "[" ((joinCloseOpen (g :: more) ++ "]")
                                        ++ rest)))
    with (String c name
          ++ String "[" ((joinCloseOpen (g :: more) ++ "]") ++ rest)).
  rewrite spanName_app; [| exact O | right; eauto].
  unfold bracketGroups. replace (isOpen "[") with true by reflexivity.
  rewrite append_assoc.
  change ("]" ++ rest) with (String "]" rest).
  rewrite throughLastClose_then_rest;
    [reflexivity | now apply joinCloseOpen_onLine | exact R].
Qed.

Lemma matchFragment_unclosed (name rest : string) :
  nameText name = true ->
  allChars notClose rest = true ->
  matchFragment (name ++ String "[" rest) = Some (name, "").
Proof.
  intros NT R.
  apply nameText_parts in NT as (T & O & _).
  destruct name as [| c name]; [discriminate |].
  pose proof O as O'. simpl in O'. apply andb_true_iff in O' as [O1 _].
  unfold notOpen in O1. apply negb_true_iff in O1.
  change (String c name ++ String "[" rest)
    with (String c (name ++ String "[" rest)).
  rewrite matchFragment_started by exact O1.
  change (String c (name ++ String "[" rest))
    with (String c name ++ String "[" rest).
  rewrite spanName_app; [| exact O | right; eauto].
  unfold bracketGroups. replace (isOpen "[") with true by reflexivity.
  now rewrite (throughLastClose_no_close rest R).
Qed.

(** X15 (malformed brackets are not an error): in a path of one segment, a
    bracket that is never closed is dropped together with what follows it,
    and what follows the last closing bracket of the groups is dropped; the
    parser returns the steps of the well-formed part instead of throwing. *)
Theorem parseJsonPath_ignores_malformed_tail :
  (forall name rest : string,
      nameText name = true ->
      allChars notClose rest = true ->
      allChars notDot rest = true ->
      parseJsonPath (name ++ "[" ++ rest) = Return [name])
  /\ (forall (name : string) (groups : list string) (rest : string),
         nameText name = true ->
         forallb plainText groups = true ->
         groups <> [] ->
         allChars notClose rest = true ->
         allChars notDot rest = true ->
         parseJsonPath (name ++ brackets groups ++ rest)
         = Return (name :: groups)).
Proof.
  split.
  - intros name rest NT R D. unfold parseJsonPath.
    rewrite splitDots_no_dot.
    + cbn [parseFragments].
      change (name ++ "[" ++ rest) with (name ++ String "[" rest).
      rewrite (matchFragment_unclosed name rest NT R).
      apply nameText_parts in NT as (T & _). simpl. now rewrite T.
    + apply nameText_parts in NT as (_ & _ & ND).
      rewrite allChars_app, ND. exact D.
  - intros name groups rest NT G NE R D. unfold parseJsonPath.
    rewrite splitDots_no_dot.
    + cbn [parseFragments].
      rewrite (matchFragment_trailing name groups rest NT G NE R).
      rewrite pushed_segment by exact G.
      change ((name :: groups) ++ [])%list
        with (flat_map segmentSteps [(name, groups)]).
      rewrite (filter_truthy_steps [(name, groups)]).
      * cbn [flat_map segmentSteps fst snd]. now rewrite app_nil_r.
      * unfold wellFormedSegment. simpl. now rewrite NT, G.
    + apply nameText_parts in NT as (_ & _ & ND).
      rewrite !allChars_app, ND, (brackets_no_dot groups G). exact D.
Qed.

Lemma parseJsonPath_ignores_malformed_tail_witness :
  parseJsonPath ("a" ++ "[" ++ "1[2") = Return ["a"]
  /\ parseJsonPath ("a" ++ brackets ["1"; "2"] ++ "b[3") = Return ["a"; "1"; "2"].
Proof.
  split.
  - apply (proj1 parseJsonPath_ignores_malformed_tail); reflexivity.
  - apply (proj2 parseJsonPath_ignores_malformed_tail "a" ["1"; "2"] "b[3");
      try reflexivity. discriminate.
Defined.
